(** * Store-location geocoding pipeline ([data_pipeline.py])

    A shallow embedding of the geocoding client ([GeocodingService]), the
    address cleaner ([DataCleaner.clean_bc_address]) and the store-location
    orchestrator ([StoreLocationsProcessor]) of [src/data_pipeline.py], and the
    properties of them that the specification states.

    Conventions of the embedding.
    - A Python value that flows through the code (a decoded JSON document, a
      cell of a data frame, an argument) is a [pyval].  A float carries its
      value as a rational; NaN, which pandas uses for a missing cell, has a
      constructor of its own.  A [dict] is the list of its items, every key
      occurring once.
    - A string is a sequence of code points below 256.
    - Evaluating a Python expression either gives a value or raises: [res].
    - The service object and the outside world are an explicit [state]: the
      cache of the service, the requests sent to the remote service so far,
      and the lines printed so far.  A method is a function
      [state -> res _ * state]; the state after a raise is the state at the
      raise, as in Python.
    - A row of a data frame maps column labels to cells, and a cell holds
      the value assigned to it.  pandas may store [None] as NaN in a typed
      column; the two are the missing values of [pd.isna], and the code
      reads a cell it has assigned through [pd.isna] and [pd.notna] only.
    - The remote geocoding service, Python's [str] on values that are not
      strings, the file readers and the version of NumPy (for the truth
      value of an array without cells) are outside the program: they are
      the variables of the section.  [time.sleep] only passes time and is
      left out. *)

From Stdlib Require Import ZArith QArith Ascii String List Bool Lia.
From stdpp Require Import base option list gmap strings fin_maps.

Local Open Scope string_scope.
Local Open Scope list_scope.

(** ** Python values *)

#[local] Set Warnings "-register-all".

Inductive pyval : Type :=
| PNone
| PBool (b : bool)
| PInt (n : Z)
| PFloat (x : Q)
| PNaN
| PStr (s : string)
| PList (l : list pyval)
| PDict (d : list (string * pyval)).

(** The exceptions the modelled code can meet, all subclasses of
    [Exception]. *)
Inductive exn : Type :=
| KeyError
| IndexError
| TypeError
| ValueError
| RequestException
| JSONDecodeError.

Inductive res (A : Type) : Type :=
| Ok (a : A)
| Raise (e : exn).
Arguments Ok {A} a.
Arguments Raise {A} e.

Definition rbind {A B} (m : res A) (k : A -> res B) : res B :=
  match m with
  | Ok a => k a
  | Raise e => Raise e
  end.

Notation "x <-? m ;; k" := (rbind m (fun x => k))
  (at level 100, m at next level, right associativity).

(** [bool(v)]. *)
Definition truthy (v : pyval) : bool :=
  match v with
  | PNone => false
  | PBool b => b
  | PInt n => negb (n =? 0)%Z
  | PFloat x => negb (Qeq_bool x 0)
  | PNaN => true
  | PStr s => negb (s =? "")
  | PList l => match l with [] => false | _ => true end
  | PDict d => match d with [] => false | _ => true end
  end.

(** [isinstance(v, str)]. *)
Definition isinstance_str (v : pyval) : bool :=
  match v with PStr _ => true | _ => false end.

(** [v is None], [v is not None]. *)
Definition is_none (v : pyval) : bool :=
  match v with PNone => true | _ => false end.

(** [pd.isna(v)] and [pd.notna(v)] on a scalar: [None] and NaN are missing. *)
Definition isna (v : pyval) : bool :=
  match v with PNone | PNaN => true | _ => false end.

Definition notna (v : pyval) : bool := negb (isna v).

(** On a list, [pd.isna] and [pd.notna] answer with an array, one answer for
    each cell of the array that NumPy makes of the list (asked for objects).
    The dimensions of that array: the length of the list, then the
    dimensions that its elements share; a value that is not a list is a
    cell. *)
Fixpoint common_prefix (s t : list nat) : list nat :=
  match s, t with
  | a :: s', b :: t' => if (a =? b)%nat then a :: common_prefix s' t' else []
  | _, _ => []
  end.

Fixpoint dims (v : pyval) : list nat :=
  match v with
  | PList l =>
      length l ::
      match map dims l with
      | [] => []
      | d :: ds => fold_left common_prefix ds d
      end
  | _ => []
  end.

(** The number of cells of the array. *)
Definition array_size (v : pyval) : nat := fold_right Nat.mul 1%nat (dims v).

(** The cell of an array that has one. *)
Fixpoint only_cell (v : pyval) : pyval :=
  match v with
  | PList (x :: _) => only_cell x
  | _ => v
  end.

(** [v == s] for a string [s]. *)
Definition eq_str (v : pyval) (s : string) : bool :=
  match v with PStr t => t =? s | _ => false end.

Fixpoint dict_get (k : string) (d : list (string * pyval)) : option pyval :=
  match d with
  | [] => None
  | (k', v) :: d' => if k' =? k then Some v else dict_get k d'
  end.

(** [v[k]] for a string key [k]. *)
Definition getitem (v : pyval) (k : string) : res pyval :=
  match v with
  | PDict d => match dict_get k d with Some x => Ok x | None => Raise KeyError end
  | _ => Raise TypeError
  end.

(** [v[0]]. A JSON object has string keys only, so [0] is never one. *)
Definition getitem0 (v : pyval) : res pyval :=
  match v with
  | PList l => match l with x :: _ => Ok x | [] => Raise IndexError end
  | PStr s => match s with String c _ => Ok (PStr (String c "")) | "" => Raise IndexError end
  | PDict _ => Raise KeyError
  | _ => Raise TypeError
  end.

Fixpoint chars (s : string) : list pyval :=
  match s with
  | "" => []
  | String c s' => PStr (String c "") :: chars s'
  end.

(** What [for x in v] visits. *)
Definition iterate (v : pyval) : res (list pyval) :=
  match v with
  | PList l => Ok l
  | PStr s => Ok (chars s)
  | PDict d => Ok (map (fun kv => PStr (fst kv)) d)
  | _ => Raise TypeError
  end.

Fixpoint is_substring (needle hay : string) : bool :=
  String.prefix needle hay ||
  match hay with
  | "" => false
  | String _ hay' => is_substring needle hay'
  end.

(** [s in v] for a string [s]. *)
Definition contains (s : string) (v : pyval) : res bool :=
  match v with
  | PList l => Ok (existsb (fun x => eq_str x s) l)
  | PStr t => Ok (is_substring s t)
  | PDict d => Ok (existsb (fun kv => fst kv =? s) d)
  | _ => Raise TypeError
  end.

(** ** Text and patterns *)

Definition code (c : ascii) : nat := nat_of_ascii c.

(** [[A-Za-z]]. *)
Definition is_alpha (c : ascii) : bool :=
  (((65 <=? code c) && (code c <=? 90)) || ((97 <=? code c) && (code c <=? 122)))%nat.

(** [\d]: below 256 the decimal digits are [0] to [9]. *)
Definition is_digit (c : ascii) : bool :=
  ((48 <=? code c) && (code c <=? 57))%nat.

(** [\s], and what [str.strip] removes: below 256 these are tab to carriage
    return, the four separators 28 to 31, the space, NEL and the no-break
    space. *)
Definition is_space (c : ascii) : bool :=
  (((9 <=? code c) && (code c <=? 13)) || ((28 <=? code c) && (code c <=? 32))
   || (code c =? 133) || (code c =? 160))%nat.

(** The lower-case form that [re.IGNORECASE] compares: below 256 the
    upper-case letters are [A] to [Z] and 192 to 222 without the
    multiplication sign 215. *)
Definition lower (c : ascii) : ascii :=
  if (((65 <=? code c) && (code c <=? 90))
      || ((192 <=? code c) && (code c <=? 222) && negb (code c =? 215)))%nat
  then ascii_of_nat (code c + 32)
  else c.

(** The pieces the two patterns of [clean_bc_address] are made of: one
    character of a class, a greedy [*] of a class, a greedy [?] of a class. *)
Inductive atom : Type :=
| Cls (p : ascii -> bool)
| Star (p : ascii -> bool)
| Opt (p : ascii -> bool).

(** Greedy repetition: take one more character first, give it back when what
    follows ([k]) does not match. *)
Fixpoint star (p : ascii -> bool) (k : list ascii -> option (list ascii))
    (s : list ascii) : option (list ascii) :=
  match s with
  | c :: s' =>
      if p c then
        match star p k s' with
        | Some r => Some r
        | None => k s
        end
      else k s
  | [] => k s
  end.

(** The backtracking match of a sequence of atoms at the start of [s]: the
    text left after the first match in the matcher's order of preference. *)
Fixpoint match_here (atoms : list atom) (s : list ascii) : option (list ascii) :=
  match atoms with
  | [] => Some s
  | Cls p :: atoms' =>
      match s with
      | c :: s' => if p c then match_here atoms' s' else None
      | [] => None
      end
  | Star p :: atoms' => star p (match_here atoms') s
  | Opt p :: atoms' =>
      match s with
      | c :: s' =>
          if p c then
            match match_here atoms' s' with
            | Some r => Some r
            | None => match_here atoms' s
            end
          else match_here atoms' s
      | [] => match_here atoms' s
      end
  end.

(** [re.search(pattern, s).group(0)]: the match at the leftmost position that
    has one. *)
Fixpoint search (atoms : list atom) (s : list ascii) : option (list ascii) :=
  match match_here atoms s with
  | Some r => Some (take (length s - length r) s)
  | None =>
      match s with
      | [] => None
      | _ :: s' => search atoms s'
      end
  end.

(** [re.sub(pattern, "", s)], scanning left to right; [skip] counts the
    characters of the current match still to be dropped.  A match of no
    character removes nothing. *)
Fixpoint sub_from (atoms : list atom) (skip : nat) (s : list ascii) : list ascii :=
  match s with
  | [] => []
  | c :: s' =>
      match skip with
      | S k => sub_from atoms k s'
      | O =>
          match match_here atoms s with
          | Some r =>
              match length s - length r with
              | S k => sub_from atoms k s'
              | O => c :: sub_from atoms 0 s'
              end
          | None => c :: sub_from atoms 0 s'
          end
      end
  end.

Definition sub (atoms : list atom) (s : list ascii) : list ascii :=
  sub_from atoms 0 s.

Fixpoint lstrip (s : list ascii) : list ascii :=
  match s with
  | c :: s' => if is_space c then lstrip s' else s
  | [] => []
  end.

(** [s.strip()]. *)
Definition strip (s : list ascii) : list ascii :=
  rev (lstrip (rev (lstrip s))).

(** [x] is the character [c] up to case. *)
Definition same_letter (c x : ascii) : bool := Ascii.eqb (lower x) (lower c).

(** A literal character of a pattern compiled with [re.IGNORECASE]. *)
Definition lit_ci (c : ascii) : atom := Cls (same_letter c).

(** A text that stands for itself in a pattern compiled with
    [re.IGNORECASE]. *)
Definition text_ci (t : list ascii) : list atom := map lit_ci t.

(** The characters with a role in pattern syntax. *)
Definition is_operator (c : ascii) : bool :=
  existsb (Ascii.eqb c) (list_ascii_of_string ".^$*+?{}[]\|()").

(** [province] goes into the pattern of line 125 unescaped.  A text without
    operator characters spells the pattern that matches it; any other text
    spells a pattern that this model does not interpret. *)
Definition plain_pattern (t : string) : option (list atom) :=
  if existsb is_operator (list_ascii_of_string t) then None
  else Some (text_ci (list_ascii_of_string t)).

(** Line 122: [[A-Za-z]\d[A-Za-z]\s?\d[A-Za-z]\d]. *)
Definition postal_pattern : list atom :=
  [Cls is_alpha; Cls is_digit; Cls is_alpha; Opt is_space;
   Cls is_digit; Cls is_alpha; Cls is_digit].

(** Line 125: [,\s*<city>\s*,?\s*<province>\s*<postal_code>], under
    [re.IGNORECASE]; [city] is escaped and so stands for itself, and so does
    the postal code, which is made of letters, digits and at most one
    space character. *)
Definition remove_pattern (city : string) (province : list atom)
    (postal_code : option (list ascii)) : list atom :=
  [lit_ci ","%char; Star is_space] ++ text_ci (list_ascii_of_string city)
  ++ [Star is_space; Opt (same_letter ","%char); Star is_space]
  ++ province ++ [Star is_space]
  ++ text_ci (default [] postal_code).

(** ** The geocoding service *)

(** A forward result [(lat, lng, postal_code)]; [(None, None, None)] is the
    unresolved one. *)
Definition geo : Type := pyval * pyval * pyval.

Definition unresolved : geo := (PNone, PNone, PNone).

(** The loop of lines 80-83: the [long_name] of the first component whose
    [types] holds ["postal_code"], [None] when the loop runs out. *)
Fixpoint first_postal (components : list pyval) : res pyval :=
  match components with
  | [] => Ok PNone
  | component :: rest =>
      types <-? getitem component "types" ;;
      hit <-? contains "postal_code" types ;;
      if hit : bool then getitem component "long_name" else first_postal rest
  end.

(** Lines 76-83, run when the status is ["OK"]. *)
Definition forward_result (data : pyval) : res geo :=
  results <-? getitem data "results" ;;
  result <-? getitem0 results ;;
  geometry <-? getitem result "geometry" ;;
  location <-? getitem geometry "location" ;;
  lat <-? getitem location "lat" ;;
  lng <-? getitem location "lng" ;;
  components <-? getitem result "address_components" ;;
  items <-? iterate components ;;
  postal_code <-? first_postal items ;;
  Ok (lat, lng, postal_code).

(** The inner loop of lines 98-100: [Some] is the [return] inside the loop,
    [None] is running out of components. *)
Fixpoint scan_components (components : list pyval) : res (option pyval) :=
  match components with
  | [] => Ok None
  | component :: rest =>
      types <-? getitem component "types" ;;
      hit <-? contains "postal_code" types ;;
      if hit : bool
      then (long_name <-? getitem component "long_name" ;; Ok (Some long_name))
      else scan_components rest
  end.

(** The outer loop of lines 97-100. *)
Fixpoint scan_results (results : list pyval) : res (option pyval) :=
  match results with
  | [] => Ok None
  | result :: rest =>
      components <-? getitem result "address_components" ;;
      items <-? iterate components ;;
      found <-? scan_components items ;;
      match found with
      | Some long_name => Ok (Some long_name)
      | None => scan_results rest
      end
  end.

(** Lines 97-100, run when the status is ["OK"]. *)
Definition reverse_result (data : pyval) : res (option pyval) :=
  results <-? getitem data "results" ;;
  items <-? iterate results ;;
  scan_results items.

(** The parameters of a GET to the geocoding endpoint, the API key apart:
    [address] of a forward lookup, [latlng] of a reverse one (the two values
    that the f-string joins with a comma). *)
Inductive request : Type :=
| Forward (address : string)
| Reverse (lat lng : pyval).

(** What comes back: no response ([requests.get] raises), a body that is not
    JSON ([response.json()] raises), or the decoded document. *)
Inductive reply : Type :=
| NoResponse
| NotJson
| Json (data : pyval).

(** The lines the modelled code prints. *)
Inductive line : Type :=
| ErrorGeocoding (address : string) (e : exn)
| ErrorReverseGeocoding (lat lng : pyval) (e : exn)
| Processing (province_code file_name : string)
| UnsupportedFormat (file_name : string)
| MissingDependency (file_type : string)
| ErrorReadingFile (file_name : string)
| RetryFailed (attempt : nat) (max_retries : Z) (api_query : string)
| GeocodingFailed (api_query : string)
| Geocoded (current_addr lat lng postal_code : pyval)
| ErrorProcessing (file_name : string) (e : exn)
| FilledMissingPostal (address postal : pyval).

Record state : Type := mkState {
  cache : gmap string geo;
  sent : list request;
  printed : list line
}.

(** After [GeocodingService.__init__], before anything ran. *)
Definition initial : state := mkState ∅ [] [].

Definition M (A : Type) : Type := state -> res A * state.

Definition ret {A} (a : A) : M A := fun st => (Ok a, st).

Definition raise {A} (e : exn) : M A := fun st => (Raise e, st).

Definition bind {A B} (m : M A) (k : A -> M B) : M B :=
  fun st =>
    match m st with
    | (Ok a, st') => k a st'
    | (Raise e, st') => (Raise e, st')
    end.

Notation "x <- m ;; k" := (bind m (fun x => k))
  (at level 100, m at next level, right associativity).
Notation "m ;;; k" := (bind m (fun _ => k))
  (at level 100, right associativity).

(** A pure evaluation inside a method. *)
Definition lift {A} (r : res A) : M A := fun st => (r, st).

(** [try: body / except Exception as e: handler e]. *)
Definition try_except {A} (body : M A) (handler : exn -> M A) : M A :=
  fun st =>
    match body st with
    | (Ok a, st') => (Ok a, st')
    | (Raise e, st') => handler e st'
    end.

Definition print (l : line) : M unit :=
  fun st => (Ok tt, mkState (cache st) (sent st) (printed st ++ [l])).

Definition cache_lookup (address : string) : M (option geo) :=
  fun st => (Ok (cache st !! address), st).

Definition cache_store (address : string) (g : geo) : M unit :=
  fun st => (Ok tt, mkState (<[address := g]> (cache st)) (sent st) (printed st)).

(** A row of a data frame (a pandas [Series]): column label to cell.  A frame
    is the list of its rows, all with the same labels; its columns are those
    of its first row. *)
Abbreviation row := (gmap string pyval).

(** The default of [max_retries] in [StoreLocationsProcessor.__init__],
    line 147. *)
Definition default_max_retries : Z := 3.

Section Pipeline.

(** The remote service: its answer to a request, given the requests it was
    sent before. *)
Variable net : list request -> request -> reply.

(** [requests.get(url, params=params)] followed by [response.json()]. *)
Definition fetch (r : request) : M pyval :=
  fun st =>
    let st' := mkState (cache st) (sent st ++ [r]) (printed st) in
    match net (sent st) r with
    | NoResponse => (Raise RequestException, st')
    | NotJson => (Raise JSONDecodeError, st')
    | Json data => (Ok data, st')
    end.

(** [GeocodingService.get_coordinates], lines 64-88.  The guard of line 65
    lets through a string that is not empty and nothing else. *)
Definition get_coordinates (address : pyval) : M geo :=
  match address with
  | PStr a =>
      if negb (truthy address) || negb (isinstance_str address) then ret unresolved
      else
        hit <- cache_lookup a ;;
        match hit with
        | Some g => ret g
        | None =>
            returned <-
              try_except
                (data <- fetch (Forward a) ;;
                 status <- lift (getitem data "status") ;;
                 if eq_str status "OK" then
                   g <- lift (forward_result data) ;;
                   cache_store a g ;;;
                   ret (Some g)
                 else ret None)
                (fun e => print (ErrorGeocoding a e) ;;; ret None) ;;
            match returned with
            | Some g => ret g
            | None => ret unresolved
            end
        end
  | _ => ret unresolved
  end.

(** [GeocodingService.get_postal_from_coords], lines 90-103. *)
Definition get_postal_from_coords (lat lng : pyval) : M pyval :=
  returned <-
    try_except
      (data <- fetch (Reverse lat lng) ;;
       status <- lift (getitem data "status") ;;
       if eq_str status "OK" then lift (reverse_result data) else ret None)
      (fun e => print (ErrorReverseGeocoding lat lng e) ;;; ret None) ;;
  match returned with
  | Some long_name => ret long_name
  | None => ret PNone
  end.

(** ** The address cleaner *)

(** Python's [str] on a value that is not a string. *)
Variable render : pyval -> string.

(** [str(v)], and [v] inside an f-string. *)
Definition str_ (v : pyval) : string :=
  match v with PStr s => s | _ => render v end.

Definition text (s : string) : list ascii := list_ascii_of_string s.

Definition PText (t : list ascii) : pyval := PStr (string_of_list_ascii t).

(** [DataCleaner.clean_bc_address], lines 119-127.  [None] only when
    [province] holds an operator character (see [plain_pattern]). *)
Definition clean_bc_address (full_address city : pyval) (province : string)
    : option (pyval * pyval) :=
  match full_address with
  | PStr a =>
      match plain_pattern province with
      | Some province_pattern =>
          let postal_match := search postal_pattern (text a) in
          let postal_code :=
            match postal_match with Some m => PText m | None => PNone end in
          let remove := remove_pattern (str_ city) province_pattern postal_match in
          let cleaned := sub remove (text a) in
          Some (PText (strip cleaned), postal_code)
      | None => None
      end
  | _ => Some (full_address, PNone)
  end.

(** ** The store-location processor *)

(** [col in df.columns].  A frame without rows passes through the code
    unchanged and is left out as empty, whatever its columns. *)
Definition has_column (df : list row) (col : string) : bool :=
  match df with
  | r :: _ => bool_decide (is_Some (r !! col))
  | [] => false
  end.

(** [row[col]] and [df.at[idx, col]]. *)
Definition cell (r : row) (col : string) : res pyval :=
  match r !! col with Some v => Ok v | None => Raise KeyError end.

(** [row.get(col, d)]. *)
Definition row_get (r : row) (col : string) (d : pyval) : pyval :=
  default d (r !! col).

(** [Config.PROVINCE_FULL_NAMES], lines 41-47. *)
Definition PROVINCE_FULL_NAMES : gmap string string :=
  list_to_map
    [("AB", "Alberta"); ("BC", "British Columbia"); ("MB", "Manitoba");
     ("NB", "New Brunswick"); ("NL", "Newfoundland and Labrador");
     ("NS", "Nova Scotia"); ("NT", "Northwest Territories"); ("NU", "Nunavut");
     ("ON", "Ontario"); ("PE", "Prince Edward Island"); ("QC", "Quebec");
     ("SK", "Saskatchewan"); ("YT", "Yukon")].

(** What reading a file gives: the table, an [ImportError] (a reader's engine
    is not installed), or another exception. *)
Inductive read_result : Type :=
| Table (df : list row)
| ReadImportError
| ReadError.

(** [pd.read_excel] and [pd.read_csv] on the file of that name, by the file
    type that selects the reader. *)
Variable read_table : string -> string -> read_result.

(** [self.max_retries]. *)
Variable max_retries : Z.

(** The retry loop of lines 211-217; [last] is what [lat, lng, postal] hold
    when the loop is entered at [attempt]. *)
Fixpoint retry (api_query : string) (attempt remaining : nat) (last : geo) : M geo :=
  match remaining with
  | O => ret last
  | S remaining' =>
      g <- get_coordinates (PStr api_query) ;;
      if negb (is_none g.1.1) && negb (is_none g.1.2) then ret g
      else
        print (RetryFailed attempt max_retries api_query) ;;;
        retry api_query (S attempt) remaining' g
  end.

(** Lines 197-205: the frame's row and [current_addr] after the special
    handling of British Columbia.  [r] is the row that [iterrows] yielded and
    also the frame's row so far.  The last branch is never taken: the
    province passed is a plain text. *)
Definition bc_handling (province_code : string) (r : row) (current_addr : pyval)
    : res (row * pyval) :=
  if (province_code =? "BC") && bool_decide (is_Some (r !! "FullAddress")) then
    full_address <-? cell r "FullAddress" ;;
    city <-? cell r "City" ;;
    match clean_bc_address full_address city "British Columbia" with
    | Some (clean_addr, extracted_postal) =>
        let r1 := <["Address" := clean_addr]> r in
        let r2 :=
          if negb (truthy (row_get r "PostalCode" PNone))
          then <["PostalCode" := extracted_postal]> r1
          else r1 in
        Ok (r2, clean_addr)
    | None => Raise ValueError
    end
  else Ok (r, current_addr).

(** Lines 195-209, up to the retry loop: the frame's row, [current_addr] and
    [api_query]. *)
Definition prepare (province_code : string) (r : row) : res (row * pyval * string) :=
  let current_addr :=
    let a := row_get r "Address" (PStr "") in
    PStr (str_ (if truthy a then a else PStr "")) in
  handled <-? bc_handling province_code r current_addr ;;
  let current_addr := handled.2 in
  let city := str_ (row_get r "City" (PStr "")) in
  full_prov <-? cell r "FullProvinceName" ;;
  Ok (handled.1, current_addr,
      str_ current_addr +:+ ", " +:+ city +:+ ", " +:+ str_ full_prov +:+ ", Canada").

(** Lines 222-225: the writes of the result [g] of the loop into the row. *)
Definition store_result (r : row) (g : geo) : res row :=
  let r' := <["Longitude" := g.1.2]> (<["Latitude" := g.1.1]> r) in
  old <-? cell r' "PostalCode" ;;
  Ok (if isna old && truthy g.2 then <["PostalCode" := g.2]> r' else r').

(** The body of the loop over rows, lines 195-230: the frame's row after the
    iteration. *)
Definition process_row (province_code : string) (r : row) : M row :=
  p <- lift (prepare province_code r) ;;
  let api_query := p.2 in
  g <- retry api_query 1 (Z.to_nat max_retries) unresolved ;;
  (if is_none g.1.1 || is_none g.1.2
   then print (GeocodingFailed api_query) else ret tt) ;;;
  r' <- lift (store_result p.1.1 g) ;;
  shown <- lift (cell r' "PostalCode") ;;
  print (Geocoded p.1.2 g.1.1 g.1.2 shown) ;;;
  ret r'.

(** [for idx, row in df.iterrows()], line 194. *)
Fixpoint iterrows (province_code : string) (df : list row) : M (list row) :=
  match df with
  | [] => ret []
  | r :: rest =>
      r' <- process_row province_code r ;;
      rest' <- iterrows province_code rest ;;
      ret (r' :: rest')
  end.

Definition target_cols : list string :=
  ["StoreName"; "City"; "Province"; "FullProvinceName";
   "Address"; "PostalCode"; "Latitude"; "Longitude"].

(** [df[[c for c in target_cols if c in df.columns]]] on one row. *)
Definition select_target (r : row) : row :=
  filter (fun kv => kv.1 ∈ target_cols) r.

(** [df[col] = v]. *)
Definition set_column (col : string) (v : pyval) (df : list row) : list row :=
  map (fun r => <[col := v]> r) df.

(** Lines 189-191. *)
Definition init_columns (df : list row) : list row :=
  fold_left
    (fun df col => if has_column df col then df else set_column col PNone df)
    ["Latitude"; "Longitude"; "PostalCode"; "Address"] df.

(** [df.rename(columns=col_mapping)] on one row, for a mapping that gives no
    two columns of the frame the same label. *)
Definition rename_row (col_mapping : gmap string string) (r : row) : row :=
  kmap (fun k => default k (col_mapping !! k)) r.

(** Lines 177-191 of [process_province]: the rows of the province, the
    columns renamed, the province and its full name filled in, the geocoding
    columns present.  An unknown province code raises the [KeyError] of the
    lookup in [Config.PROVINCE_FULL_NAMES]. *)
Definition reconcile (province_code : string) (col_mapping : gmap string string)
    (df : list row) : res (list row) :=
  let df :=
    if has_column df "Site Province Abbrev"
    then filter (fun r => eq_str (row_get r "Site Province Abbrev" PNone) province_code = true) df
    else df in
  let df := map (rename_row col_mapping) df in
  let df := set_column "Province" (PStr province_code) df in
  match PROVINCE_FULL_NAMES !! province_code with
  | None => Raise KeyError
  | Some full_name =>
      let df := set_column "FullProvinceName" (PStr full_name) df in
      Ok (init_columns df)
  end.

(** [StoreLocationsProcessor.process_province], lines 152-235; [None] is the
    [return None] of a file that could not be read. *)
Definition process_province (file_name province_code file_type : string)
    (col_mapping : gmap string string) : M (option (list row)) :=
  print (Processing province_code file_name) ;;;
  if negb ((file_type =? "xls") || (file_type =? "xlsx") || (file_type =? "csv"))
  then print (UnsupportedFormat file_name) ;;; ret None
  else
    match read_table file_name file_type with
    | ReadImportError => print (MissingDependency file_type) ;;; ret None
    | ReadError => print (ErrorReadingFile file_name) ;;; ret None
    | Table df =>
        df <- lift (reconcile province_code col_mapping df) ;;
        df <- iterrows province_code df ;;
        ret (Some (map select_target df))
    end.

(** The table of lines 239-269: file, province code, file type, column
    mapping. *)
Definition config : Type := string * string * string * gmap string string.

Definition alberta_mapping : gmap string string :=
  list_to_map
    [("Establishment Name", "StoreName"); ("Site City Name", "City");
     ("Site Address Line 1", "Address"); ("Site Postal Code", "PostalCode")].

Definition address_mapping : gmap string string :=
  list_to_map [("FullAddress", "Address")].

Definition province_configs : list config :=
  [("Alberta.xls", "AB", "xls", alberta_mapping);
   ("Alberta.xls", "BC", "xls", alberta_mapping);
   ("BritishColumbia.csv", "BC", "csv", list_to_map [("FullAddress", "FullAddress")]);
   ("Alberta.xls", "MB", "xls", alberta_mapping);
   ("Manitoba.csv", "MB", "csv", address_mapping);
   ("NewBrunswick.csv", "NB", "csv", address_mapping);
   ("Newfoundland.csv", "NL", "csv", address_mapping);
   ("NorthwestTerritories.csv", "NT", "csv", address_mapping);
   ("NovaScotia.csv", "NS", "csv", address_mapping);
   ("Nunavut.csv", "NU", "csv", address_mapping);
   ("Ontario.csv", "ON", "csv",
    list_to_map [("Store Name", "StoreName");
                 ("Municipality or First Nation", "City");
                 ("FullAddress", "Address")]);
   ("PrinceEdwardIsland.csv", "PE", "csv", address_mapping);
   ("Quebec.csv", "QC", "csv", address_mapping);
   ("Saskatchewan.csv", "SK", "csv",
    list_to_map [("Operating Name", "StoreName"); ("Street Address", "Address")]);
   ("Yukon.csv", "YT", "csv", address_mapping)].

(** One turn of the loop of lines 272-278: the frame to append, if any. *)
Definition try_province (c : config) : M (option (list row)) :=
  try_except
    (df <- process_province c.1.1.1 c.1.1.2 c.1.2 c.2 ;;
     ret (match df with
          | Some (r :: rows) => Some (r :: rows)
          | _ => None
          end))
    (fun e => print (ErrorProcessing c.1.1.1 e) ;;; ret None).

(** The loop of lines 271-278 over a table of configurations: [dfs]. *)
Fixpoint process_configs (configs : list config) : M (list (list row)) :=
  match configs with
  | [] => ret []
  | c :: rest =>
      got <- try_province c ;;
      dfs <- process_configs rest ;;
      ret (match got with Some df => df :: dfs | None => dfs end)
  end.

(** [pd.concat(dfs, ignore_index=True)]: the rows in order, a column that a
    frame lacks filled with NaN. *)
Definition pd_concat (dfs : list (list row)) : list row :=
  let rows := concat dfs in
  let columns : gset string := ⋃ (map dom rows) in
  map (fun r => r ∪ gset_to_gmap PNaN columns) rows.

(** [bool] of an array without cells: [False] before NumPy 2.2 (with a
    warning, which line 21 silences), a [ValueError] from that version on.
    The code does not say which NumPy it runs with. *)
Variable empty_array_raises : bool.

(** The truth value that the test of line 295 takes of [pd.notna(v)]: of a
    value that is not a list, whether it is missing; of a list, [bool] of
    the array of answers, which is its cell when it has one and raises
    [ValueError] when it has several. *)
Definition notna_truth (v : pyval) : res bool :=
  match v with
  | PList _ =>
      match array_size v with
      | 0 => if empty_array_raises then Raise ValueError else Ok false
      | 1 => Ok (notna (only_cell v))
      | _ => Raise ValueError
      end
  | _ => Ok (notna v)
  end.

(** The body of the loop of lines 293-299, for a row whose postal code is
    missing; [and] takes the truth value of its second operand only when
    the first is true. *)
Definition fill_postal (r : row) : M row :=
  lat <- lift (cell r "Latitude") ;;
  lng <- lift (cell r "Longitude") ;;
  both <- lift (has_lat <-? notna_truth lat ;;
                if has_lat : bool then notna_truth lng else Ok false) ;;
  if both : bool then
    postal <- get_postal_from_coords lat lng ;;
    let r' := <["PostalCode" := postal]> r in
    address <- lift (cell r' "Address") ;;
    print (FilledMissingPostal address postal) ;;;
    ret r'
  else ret r.

(** The loop of lines 293-299; [missing_postal] is the mask of line 292. *)
Fixpoint reverse_pass (master_df : list row) (missing_postal : list bool) : M (list row) :=
  match master_df, missing_postal with
  | r :: rest, missing :: mask =>
      r' <- (if missing : bool then fill_postal r else ret r) ;;
      rest' <- reverse_pass rest mask ;;
      ret (r' :: rest')
  | _, _ => ret []
  end.

(** [master_df['PostalCode'].isna()], line 292. *)
Fixpoint postal_isna (master_df : list row) : res (list bool) :=
  match master_df with
  | [] => Ok []
  | r :: rest =>
      v <-? cell r "PostalCode" ;;
      mask <-? postal_isna rest ;;
      Ok (isna v :: mask)
  end.

(** Lines 280-301, from [dfs] on. *)
Definition combine (dfs : list (list row)) : M (list row) :=
  match dfs with
  | [] => raise ValueError
  | _ =>
      let master_df := pd_concat dfs in
      missing_postal <- lift (postal_isna master_df) ;;
      reverse_pass master_df missing_postal
  end.

(** [StoreLocationsProcessor.process_all_provinces], lines 237-301. *)
Definition process_all_provinces : M (list row) :=
  dfs <- process_configs province_configs ;;
  combine dfs.

End Pipeline.

(** * Vocabulary of the properties *)

(** ** What the geocoding service reads from a response *)

(** [v] is an object whose member [k] is [x]. *)
Definition member (v : pyval) (k : string) (x : pyval) : Prop :=
  exists d, v = PDict d /\ dict_get k d = Some x.

(** The postal code that a list of address components yields: the
    [long_name] of the first component tagged ["postal_code"], every
    component before it being an object with [types]; [None] when no
    component is tagged. *)
Inductive yields_postal : list pyval -> pyval -> Prop :=
| yields_none : yields_postal [] PNone
| yields_here component rest types long_name :
    member component "types" types ->
    contains "postal_code" types = Ok true ->
    member component "long_name" long_name ->
    yields_postal (component :: rest) long_name
| yields_later component rest types postal_code :
    member component "types" types ->
    contains "postal_code" types = Ok false ->
    yields_postal rest postal_code ->
    yields_postal (component :: rest) postal_code.

(** A document from which a forward result can be read: its first result
    has [geometry.location.lat], [geometry.location.lng] and address
    components that yield a postal code. *)
Definition readable (data : pyval) (g : geo) : Prop :=
  exists results result geometry location components items,
    member data "results" results /\
    getitem0 results = Ok result /\
    member result "geometry" geometry /\
    member geometry "location" location /\
    member location "lat" g.1.1 /\
    member location "lng" g.1.2 /\
    member result "address_components" components /\
    iterate components = Ok items /\
    yields_postal items g.2.

(** The status of a document is the success token. *)
Definition status_ok (data : pyval) : Prop := member data "status" (PStr "OK").

(** A forward lookup that does not resolve: no response, a body that is not
    JSON, a status that is absent or not the success token, or a success
    from which no result can be read. *)
Definition lookup_fails (rep : reply) : Prop :=
  match rep with
  | NoResponse | NotJson => True
  | Json data => ~ status_ok data \/ forall g, ~ readable data g
  end.

(** A forward lookup that resolves to [g]. *)
Definition lookup_resolves (rep : reply) (g : geo) : Prop :=
  exists data, rep = Json data /\ status_ok data /\ readable data g.

(** The decision the code takes on a response, as a function. *)
Definition resolution (rep : reply) : option geo :=
  match rep with
  | Json data =>
      match getitem data "status" with
      | Ok status =>
          if eq_str status "OK" then
            match forward_result data with Ok g => Some g | Raise _ => None end
          else None
      | Raise _ => None
      end
  | _ => None
  end.

(** ** The response that the specification expects *)

Definition is_number (v : pyval) : bool :=
  match v with PInt _ | PFloat _ => true | _ => false end.

(** An address component: an object with a list of strings as [types] and a
    string as [long_name]. *)
Definition expected_component (component : pyval) : bool :=
  match getitem component "types", getitem component "long_name" with
  | Ok (PList types), Ok (PStr _) => forallb isinstance_str types
  | _, _ => false
  end.

(** A result: numbers as [geometry.location.lat] and
    [geometry.location.lng], and a list of address components. *)
Definition expected_result (result : pyval) : bool :=
  match
    geometry <-? getitem result "geometry" ;;
    location <-? getitem geometry "location" ;;
    lat <-? getitem location "lat" ;;
    lng <-? getitem location "lng" ;;
    components <-? getitem result "address_components" ;;
    Ok (lat, lng, components)
  with
  | Ok (lat, lng, PList components) =>
      is_number lat && is_number lng && forallb expected_component components
  | _ => false
  end.

(** The shape of a response in section 6 of the specification:
    [{status, results: [{geometry: {location: {lat, lng}},
    address_components: [{types: [...], long_name}]}]}]. *)
Definition expected_shape (data : pyval) : bool :=
  match getitem data "status", getitem data "results" with
  | Ok (PStr _), Ok (PList results) => forallb expected_result results
  | _, _ => false
  end.

(** ** What a pattern matches *)

Definition all_of (p : ascii -> bool) (w : list ascii) : Prop :=
  Forall (fun c => p c = true) w.

(** The texts a sequence of atoms matches, whatever the order in which a
    matcher tries them. *)
Inductive matches : list atom -> list ascii -> Prop :=
| matches_nil : matches [] []
| matches_cls p atoms c m :
    p c = true -> matches atoms m -> matches (Cls p :: atoms) (c :: m)
| matches_star p atoms w m :
    all_of p w -> matches atoms m -> matches (Star p :: atoms) (w ++ m)
| matches_opt_one p atoms c m :
    p c = true -> matches atoms m -> matches (Opt p :: atoms) (c :: m)
| matches_opt_none p atoms m :
    matches atoms m -> matches (Opt p :: atoms) m.

(** A postal code as line 122 spells it: letter, digit, letter, at most one
    space character, digit, letter, digit. *)
Definition postal_shape (m : list ascii) : Prop :=
  exists a b c w d e f,
    m = [a; b; c] ++ w ++ [d; e; f]
    /\ is_alpha a = true /\ is_digit b = true /\ is_alpha c = true
    /\ (w = [] \/ exists x, w = [x] /\ is_space x = true)
    /\ is_digit d = true /\ is_alpha e = true /\ is_digit f = true.

(** [s] has a postal code at [pre], and none that starts before. *)
Definition first_postal_at (s pre m post : list ascii) : Prop :=
  s = pre ++ m ++ post /\ postal_shape m
  /\ forall pre' m' post',
       s = pre' ++ m' ++ post' -> postal_shape m' -> length pre <= length pre'.

Definition no_postal (s : list ascii) : Prop :=
  forall pre m post, s = pre ++ m ++ post -> ~ postal_shape m.

(** Equal up to the case of letters. *)
Definition same_ci (m t : list ascii) : Prop :=
  Forall2 (fun x c => lower x = lower c) m t.

(** What line 125 removes when no postal code was found: a comma, the city,
    at most one comma, the province, with any white space around them and
    after. *)
Definition suffix_shape (city province m : list ascii) : Prop :=
  exists comma w1 c w2 k w3 p w4,
    m = comma :: w1 ++ c ++ w2 ++ k ++ w3 ++ p ++ w4
    /\ lower comma = lower ","%char
    /\ all_of is_space w1 /\ same_ci c city /\ all_of is_space w2
    /\ (k = [] \/ exists x, k = [x] /\ lower x = lower ","%char)
    /\ all_of is_space w3 /\ same_ci p province /\ all_of is_space w4.

Definition no_suffix (city province s : list ascii) : Prop :=
  forall pre m post, s = pre ++ m ++ post -> ~ suffix_shape city province m.

(** ** Trimming and removing *)

(** A text that neither starts nor ends with a white-space character. *)
Definition trimmed (t : list ascii) : Prop :=
  (forall c rest, t = c :: rest -> is_space c = false)
  /\ (forall front c, t = front ++ [c] -> is_space c = false).

(** [t] is [s] without the white space at its two ends. *)
Definition trimmed_of (s t : list ascii) : Prop :=
  exists w1 w2,
    s = w1 ++ t ++ w2 /\ all_of is_space w1 /\ all_of is_space w2 /\ trimmed t.

(** A text that begins with a character of a class. *)
Definition begins_with (p : ascii -> bool) (t : list ascii) : Prop :=
  exists c rest, t = c :: rest /\ p c = true.

Definition no_space (c : ascii) : bool := negb (is_space c).

Definition no_space_no_comma (c : ascii) : bool :=
  negb (is_space c) && negb (same_letter ","%char c).

(** The first occurrence in [s] of what line 125 removes: [m], after [pre],
    with all the white space that follows it, no occurrence starting
    before. *)
Definition first_suffix_at (city province s pre m post : list ascii) : Prop :=
  s = pre ++ m ++ post /\ suffix_shape city province m
  /\ (forall c rest, post = c :: rest -> is_space c = false)
  /\ forall pre' m' post',
       s = pre' ++ m' ++ post' -> suffix_shape city province m' ->
       length pre <= length pre'.

(** [t] is [s] without its occurrences of what line 125 removes, the
    leftmost first, then those of what follows it. *)
Inductive without_suffixes (city province : list ascii)
    : list ascii -> list ascii -> Prop :=
| suffixes_none s : no_suffix city province s -> without_suffixes city province s s
| suffixes_first s pre m post t :
    first_suffix_at city province s pre m post ->
    without_suffixes city province post t ->
    without_suffixes city province s (pre ++ t).

(** ** Records *)

(** Latitude and longitude of a result are both missing or both there. *)
Definition paired (g : geo) : Prop := isna g.1.1 = isna g.1.2.

(** The same for the two cells of a record. *)
Definition coordinates_paired (r : row) : Prop :=
  exists lat lng,
    r !! "Latitude" = Some lat /\ r !! "Longitude" = Some lng /\ isna lat = isna lng.

(** Every result that can be read from a success of the service is paired,
    and so is every result in the cache. *)
Definition service_paired (net : list request -> request -> reply) : Prop :=
  forall before a g, lookup_resolves (net before (Forward a)) g -> paired g.

Definition cache_paired (st : state) : Prop :=
  forall a g, cache st !! a = Some g -> paired g.

(** The test of lines 214 and 219 on what an attempt returned: the attempt
    failed. *)
Definition attempt_failed (g : geo) : Prop := g.1.1 = PNone \/ g.1.2 = PNone.

(** What [pd.read_csv] and [pd.read_excel] deliver in a cell with their
    default handling of missing values: NaN for an empty cell, a number, a
    boolean, or a string that is not empty. *)
Definition file_cell (v : pyval) : bool :=
  match v with
  | PNaN | PInt _ | PFloat _ | PBool _ => true
  | PStr s => negb (s =? "")
  | _ => false
  end.

(** ** Batches *)

(** The rows of a file's table that are the province's: with a column
    "Site Province Abbrev", those that carry the province code in it;
    otherwise all. *)
Definition rows_of_province (code : string) (df : list row) : list row :=
  if has_column df "Site Province Abbrev"
  then filter
         (fun r : row => eq_str (row_get r "Site Province Abbrev" PNone) code = true) df
  else df.

(** A row of the file and the row made of it for the province: the province
    code and its full name filled in, and every column other than these and
    the four geocoding columns as the file gave it, under its new label. *)
Definition filled (code name : string) (mapping : gmap string string) (r r' : row) : Prop :=
  r' !! "Province" = Some (PStr code)
  /\ r' !! "FullProvinceName" = Some (PStr name)
  /\ forall col,
       col ∉ ["Province"; "FullProvinceName"; "Latitude"; "Longitude"; "PostalCode";
              "Address"] ->
       r' !! col = rename_row mapping r !! col.

(** A row of the file and the record returned for it: the province code,
    its full name, and the name and the city of the store as the file gave
    them. *)
Definition returned_for (code name : string) (mapping : gmap string string)
    (r r' : row) : Prop :=
  r' !! "Province" = Some (PStr code)
  /\ r' !! "FullProvinceName" = Some (PStr name)
  /\ r' !! "StoreName" = rename_row mapping r !! "StoreName"
  /\ r' !! "City" = rename_row mapping r !! "City".

Section Batches.

Variable net : list request -> request -> reply.
Variable render : pyval -> string.
Variable read_table : string -> string -> read_result.
Variable max_retries : Z.

(** What the loop over a table of configurations does, batch by batch, from
    a state to a state: a batch of which [process_province] returns a frame
    with rows adds that frame; a batch of which it returns [None] or a frame
    without rows adds nothing; a batch of which it raises adds nothing and
    prints the error.  Every batch is run, in the order of the table. *)
Inductive batches : list config -> state -> list (list row) -> state -> Prop :=
| batches_done st : batches [] st [] st
| batch_frame c rest st df st1 dfs st2 :
    process_province net render read_table max_retries c.1.1.1 c.1.1.2 c.1.2 c.2 st
    = (Ok (Some df), st1) ->
    df <> [] ->
    batches rest st1 dfs st2 ->
    batches (c :: rest) st (df :: dfs) st2
| batch_nothing c rest st got st1 dfs st2 :
    process_province net render read_table max_retries c.1.1.1 c.1.1.2 c.1.2 c.2 st
    = (Ok got, st1) ->
    got = None \/ got = Some [] ->
    batches rest st1 dfs st2 ->
    batches (c :: rest) st dfs st2
| batch_error c rest st e st1 dfs st2 :
    process_province net render read_table max_retries c.1.1.1 c.1.1.2 c.1.2 c.2 st
    = (Raise e, st1) ->
    batches rest
      (mkState (cache st1) (sent st1) (printed st1 ++ [ErrorProcessing c.1.1.1 e]))
      dfs st2 ->
    batches (c :: rest) st dfs st2.

End Batches.

(** The file type selects a reader (lines 160-165). *)
Definition supported (file_type : string) : bool :=
  (file_type =? "xls") || (file_type =? "xlsx") || (file_type =? "csv").

(** A configuration of which the file gives no table: no reader for its
    type, or a reader that raises. *)
Definition unreadable (read_table : string -> string -> read_result) (c : config)
    : Prop :=
  supported c.1.2 = false \/ forall df, read_table c.1.1.1 c.1.2 <> Table df.

(** ** The reverse pass *)

Definition is_list (v : pyval) : bool :=
  match v with PList _ => true | _ => false end.

(** A row of the concatenated frame as the pipeline makes it: with the
    columns that the reverse pass reads, and coordinates that are not
    lists. *)
Definition pass_row (r : row) : Prop :=
  is_Some (r !! "PostalCode") /\ is_Some (r !! "Address")
  /\ exists lat lng,
       r !! "Latitude" = Some lat /\ r !! "Longitude" = Some lng
       /\ is_list lat = false /\ is_list lng = false.

(** The rows for which the reverse pass asks the service: the postal code
    is missing and the two coordinates are there. *)
Definition asked (r : row) : bool :=
  isna (row_get r "PostalCode" PNone)
  && notna (row_get r "Latitude" PNone) && notna (row_get r "Longitude" PNone).

(** The request sent for such a row. *)
Definition reverse_request (r : row) : request :=
  Reverse (row_get r "Latitude" PNone) (row_get r "Longitude" PNone).

(** ** What a reverse lookup reads from a response *)

(** No component of the list is tagged ["postal_code"], each being an
    object with [types]. *)
Definition untagged (items : list pyval) : Prop :=
  Forall (fun c => exists types,
            member c "types" types /\ contains "postal_code" types = Ok false)
    items.

(** The first tagged component of the list has the name [long_name]. *)
Definition tagged_first (items : list pyval) (long_name : pyval) : Prop :=
  exists before c after types,
    items = before ++ c :: after
    /\ untagged before
    /\ member c "types" types
    /\ contains "postal_code" types = Ok true
    /\ member c "long_name" long_name.

(** The address components of a result, as the loop visits them. *)
Definition components_of (result : pyval) (items : list pyval) : Prop :=
  exists components,
    member result "address_components" components /\ iterate components = Ok items.

(** The first result that has a tagged component gives [long_name]. *)
Definition results_give (results : list pyval) (long_name : pyval) : Prop :=
  exists before result after items,
    results = before ++ result :: after
    /\ Forall (fun r => exists its, components_of r its /\ untagged its) before
    /\ components_of result items
    /\ tagged_first items long_name.

(** No result has a tagged component. *)
Definition results_give_nothing (results : list pyval) : Prop :=
  Forall (fun r => exists its, components_of r its /\ untagged its) results.

(** * Sample worlds *)

(** A success document of the remote service with one result. *)
Definition ok_body (lat lng : pyval) (components : list pyval) : pyval :=
  PDict
    [("status", PStr "OK");
     ("results",
      PList
        [PDict
           [("geometry", PDict [("location", PDict [("lat", lat); ("lng", lng)])]);
            ("address_components", PList components)]])].

Definition component (type_ long_name : string) : pyval :=
  PDict [("types", PList [PStr type_]); ("long_name", PStr long_name)].

Definition vancouver : pyval :=
  ok_body (PFloat (49 # 1)) (PFloat (-123 # 1))
    [component "route" "Main St"; component "postal_code" "V5K 0A1"].

(** A service that cannot be reached. *)
Definition down_net (_ : list request) (_ : request) : reply := NoResponse.

(** A service that finds nothing. *)
Definition no_match_net (_ : list request) (_ : request) : reply :=
  Json (PDict [("status", PStr "ZERO_RESULTS"); ("results", PList [])]).

(** A service that always answers with the same success. *)
Definition good_net (_ : list request) (_ : request) : reply := Json vancouver.

(** A service that does not answer its first request and answers the later
    ones. *)
Definition flaky_net (before : list request) (_ : request) : reply :=
  match before with
  | [] => NoResponse
  | _ => Json vancouver
  end.

(** A service whose success carries a longitude and no latitude. *)
Definition half_net (_ : list request) (_ : request) : reply :=
  Json (ok_body PNone (PFloat (-123 # 1)) []).

Definition sample_render (v : pyval) : string :=
  match v with
  | PNone => "None"
  | PNaN => "nan"
  | PBool true => "True"
  | PBool false => "False"
  | _ => "<value>"
  end.

(** A store of Manitoba as it stands in the frame when the loop over rows
    reaches it. *)
Definition oak_street : row :=
  list_to_map
    [("StoreName", PStr "Prairie Leaf"); ("City", PStr "Brandon");
     ("Address", PStr "5 Oak St"); ("Province", PStr "MB");
     ("FullProvinceName", PStr "Manitoba"); ("PostalCode", PNone);
     ("Latitude", PNone); ("Longitude", PNone)].

(** The same store with the postal code its file gave. *)
Definition oak_street_coded : row := <["PostalCode" := PStr "R7A 1B2"]> oak_street.

(** Files: every name gives the same one-store table. *)
Definition one_store (_ _ : string) : read_result :=
  Table [list_to_map [("FullAddress", PStr "5 Oak St"); ("City", PStr "Brandon")]].

(** A store with coordinates and no postal code, as the reverse pass meets
    it. *)
Definition located : row :=
  <["Latitude" := PFloat (49 # 1)]> (<["Longitude" := PFloat (-123 # 1)]> oak_street).

(** A success that is not of the expected shape: a string as latitude, a
    list as longitude, a string as address components. *)
Definition misshapen : pyval :=
  PDict
    [("status", PStr "OK");
     ("results",
      PList
        [PDict
           [("geometry",
             PDict [("location", PDict [("lat", PStr "north"); ("lng", PList [])])]);
            ("address_components", PStr "")]])].

Definition misshapen_net (_ : list request) (_ : request) : reply := Json misshapen.

(** A store of British Columbia in a file whose postal codes are numbers,
    as [pd.read_csv] reads a column of digits; this one is 0. *)
Definition zero_code : row :=
  list_to_map
    [("FullAddress", PStr "5 Oak St"); ("City", PStr "Victoria"); ("PostalCode", PInt 0)].

(** Files: every name gives the table with that store. *)
Definition numeric_codes (_ _ : string) : read_result := Table [zero_code].

(** A store of British Columbia as it stands in the frame when the loop over
    rows reaches it: its file has the postal code in the address only. *)
Definition harbour_road : row :=
  list_to_map
    [("FullAddress", PStr "12 Harbour Rd, Victoria, British Columbia V8W 1A1");
     ("City", PStr "Victoria"); ("Address", PNone); ("Province", PStr "BC");
     ("FullProvinceName", PStr "British Columbia"); ("PostalCode", PNone);
     ("Latitude", PNone); ("Longitude", PNone)].

(** The record that the pipeline returns for the store of [one_store] in a
    batch of Manitoba, with a service that answers [vancouver]. *)
Definition brandon_record : row :=
  list_to_map
    [("City", PStr "Brandon"); ("Address", PStr "5 Oak St");
     ("Province", PStr "MB"); ("FullProvinceName", PStr "Manitoba");
     ("PostalCode", PStr "V5K 0A1"); ("Latitude", PFloat (49 # 1));
     ("Longitude", PFloat (-123 # 1))].

(** The same store after a success that carried a list of two numbers as
    latitude. *)
Definition listed : row :=
  <["Latitude" := PList [PFloat (49 # 1); PFloat (50 # 1)]]> located.

(** Files: none can be read. *)
Definition no_files (_ _ : string) : read_result := ReadError.

(** * Properties *)

Lemma getitem_member v k x : getitem v k = Ok x <-> member v k x.
Proof.
  unfold getitem, member. split.
  - destruct v; try discriminate. destruct (dict_get k d) eqn:E; [|discriminate].
    intros [= ->]. eauto.
  - intros (d & -> & ->). reflexivity.
Qed.

Lemma first_postal_yields items pc : first_postal items = Ok pc <-> yields_postal items pc.
Proof.
  split.
  - revert pc. induction items as [|c rest IH]; simpl; intros pc H.
    + injection H as <-. constructor.
    + destruct (getitem c "types") as [types|] eqn:Ht; [|discriminate]. simpl in H.
      destruct (contains "postal_code" types) as [[|]|] eqn:Hc; simpl in H; try discriminate.
      * eapply yields_here; eauto; by apply getitem_member.
      * eapply yields_later; eauto. by apply getitem_member.
  - induction 1 as [|c rest types ln Ht Hc Hl|c rest types pc Ht Hc _ IH]; simpl.
    + reflexivity.
    + apply getitem_member in Ht, Hl. rewrite Ht. simpl. rewrite Hc. simpl. exact Hl.
    + apply getitem_member in Ht. rewrite Ht. simpl. rewrite Hc. simpl. exact IH.
Qed.

Lemma forward_result_readable data g : forward_result data = Ok g <-> readable data g.
Proof.
  unfold forward_result, readable. split.
  - intros H.
    destruct (getitem data "results") as [results|] eqn:H1; [|discriminate]. simpl in H.
    destruct (getitem0 results) as [result|] eqn:H2; [|discriminate]. simpl in H.
    destruct (getitem result "geometry") as [geometry|] eqn:H3; [|discriminate]. simpl in H.
    destruct (getitem geometry "location") as [location|] eqn:H4; [|discriminate]. simpl in H.
    destruct (getitem location "lat") as [lat|] eqn:H5; [|discriminate]. simpl in H.
    destruct (getitem location "lng") as [lng|] eqn:H6; [|discriminate]. simpl in H.
    destruct (getitem result "address_components") as [components|] eqn:H7; [|discriminate].
    simpl in H.
    destruct (iterate components) as [items|] eqn:H8; [|discriminate]. simpl in H.
    destruct (first_postal items) as [pc|] eqn:H9; [|discriminate]. simpl in H.
    injection H as <-. simpl.
    exists results, result, geometry, location, components, items.
    rewrite <- !getitem_member, <- first_postal_yields. auto 10.
  - intros (results & result & geometry & location & components & items & H).
    rewrite <- !getitem_member, <- first_postal_yields in H.
    destruct H as (H1 & H2 & H3 & H4 & H5 & H6 & H7 & H8 & H9).
    rewrite H1; simpl. rewrite H2; simpl. rewrite H3; simpl. rewrite H4; simpl.
    rewrite H5; simpl. rewrite H6; simpl. rewrite H7; simpl. rewrite H8; simpl.
    rewrite H9; simpl. by destruct g as [[??]?].
Qed.

Lemma eq_str_true v s : eq_str v s = true <-> v = PStr s.
Proof.
  destruct v; simpl; try (split; [discriminate | by intros [=]]).
  rewrite String.eqb_eq. split; [by intros -> | by intros [=]].
Qed.

Lemma resolution_resolves rep g : resolution rep = Some g <-> lookup_resolves rep g.
Proof.
  unfold resolution, lookup_resolves, status_ok. split.
  - destruct rep as [| |data]; try discriminate.
    destruct (getitem data "status") as [status|] eqn:Hs; [|discriminate].
    destruct (eq_str status "OK") eqn:Hok; [|discriminate].
    destruct (forward_result data) as [g'|] eqn:Hf; [|discriminate].
    intros [= ->]. exists data. apply eq_str_true in Hok as ->.
    by rewrite <- getitem_member, <- forward_result_readable.
  - intros (data & -> & Hs & Hr).
    apply getitem_member in Hs. apply forward_result_readable in Hr.
    rewrite Hs, Hr. reflexivity.
Qed.

Lemma resolution_fails rep : resolution rep = None <-> lookup_fails rep.
Proof.
  unfold resolution, lookup_fails, status_ok. destruct rep as [| |data]; try tauto.
  split.
  - destruct (getitem data "status") as [status|] eqn:Hs.
    + destruct (eq_str status "OK") eqn:Hok.
      * destruct (forward_result data) as [g'|] eqn:Hf; [discriminate|].
        intros _. right. intros g Hg. apply forward_result_readable in Hg. congruence.
      * intros _. left. rewrite <- getitem_member, Hs. intros [= ->]. discriminate.
    + intros _. left. rewrite <- getitem_member, Hs. discriminate.
  - intros [Hs|Hr].
    + destruct (getitem data "status") as [status|] eqn:Hg; [|done].
      destruct (eq_str status "OK") eqn:Hok; [|done].
      apply eq_str_true in Hok as ->. exfalso. apply Hs. by apply getitem_member.
    + destruct (getitem data "status") as [status|]; [|done].
      destruct (eq_str status "OK"); [|done].
      destruct (forward_result data) as [g|] eqn:Hf; [|done].
      exfalso. apply (Hr g). by apply forward_result_readable.
Qed.

(** ** The three ways a forward lookup ends *)

Section Service.

Variable net : list request -> request -> reply.

Lemma state_eta st : mkState (cache st) (sent st) (printed st) = st.
Proof. by destruct st. Qed.

Lemma truthy_str a : a <> "" -> truthy (PStr a) = true.
Proof. intros H. simpl. by apply negb_true_iff, String.eqb_neq. Qed.

(** A query that is already in the cache: the cached result, nothing else. *)
Lemma get_coordinates_hit a g st :
  a <> "" -> cache st !! a = Some g ->
  get_coordinates net (PStr a) st = (Ok g, st).
Proof.
  intros Ha Hc. unfold get_coordinates. rewrite (truthy_str a Ha). simpl.
  unfold bind, cache_lookup. by rewrite Hc.
Qed.

(** A miss answered by a success: the result, cached, after one request. *)
Lemma get_coordinates_resolved a g st :
  a <> "" -> cache st !! a = None ->
  resolution (net (sent st) (Forward a)) = Some g ->
  get_coordinates net (PStr a) st =
    (Ok g, mkState (<[a := g]> (cache st)) (sent st ++ [Forward a]) (printed st)).
Proof.
  intros Ha Hc Hr. unfold get_coordinates. rewrite (truthy_str a Ha). simpl.
  unfold bind at 1. unfold cache_lookup. rewrite Hc.
  unfold bind at 1. unfold try_except, bind, fetch, lift.
  unfold resolution in Hr.
  destruct (net (sent st) (Forward a)) as [| |data]; try discriminate.
  destruct (getitem data "status") as [status|]; [|discriminate].
  destruct (eq_str status "OK"); [|discriminate].
  destruct (forward_result data) as [g'|]; [|discriminate].
  injection Hr as ->. reflexivity.
Qed.

(** A miss answered by a failure: unresolved, nothing cached, after one
    request. *)
Lemma get_coordinates_failed a st :
  a <> "" -> cache st !! a = None ->
  resolution (net (sent st) (Forward a)) = None ->
  exists out,
    get_coordinates net (PStr a) st =
      (Ok unresolved, mkState (cache st) (sent st ++ [Forward a]) (printed st ++ out)).
Proof.
  intros Ha Hc Hr. unfold get_coordinates. rewrite (truthy_str a Ha). simpl.
  unfold bind at 1. unfold cache_lookup. rewrite Hc.
  unfold bind at 1. unfold try_except, bind, fetch, lift, print, ret.
  unfold resolution in Hr.
  destruct (net (sent st) (Forward a)) as [| |data]; simpl.
  - by eexists [_].
  - by eexists [_].
  - destruct (getitem data "status") as [status|]; simpl; [|by eexists [_]].
    destruct (eq_str status "OK"); simpl.
    + destruct (forward_result data) as [g'|]; [discriminate|]. by eexists [_].
    + exists []. by rewrite app_nil_r.
Qed.

(** The three cases together. *)
Lemma get_coordinates_cases a st :
  a <> "" ->
  (exists g, cache st !! a = Some g /\ get_coordinates net (PStr a) st = (Ok g, st))
  \/ (exists g, cache st !! a = None
        /\ resolution (net (sent st) (Forward a)) = Some g
        /\ get_coordinates net (PStr a) st =
             (Ok g, mkState (<[a := g]> (cache st)) (sent st ++ [Forward a]) (printed st)))
  \/ (exists out, cache st !! a = None
        /\ resolution (net (sent st) (Forward a)) = None
        /\ get_coordinates net (PStr a) st =
             (Ok unresolved,
              mkState (cache st) (sent st ++ [Forward a]) (printed st ++ out))).
Proof.
  intros Ha. destruct (cache st !! a) as [g|] eqn:Hc.
  - left. exists g. split; [done|]. by apply get_coordinates_hit.
  - destruct (resolution (net (sent st) (Forward a))) as [g|] eqn:Hr.
    + right. left. exists g. repeat split; try done. by apply get_coordinates_resolved.
    + right. right. destruct (get_coordinates_failed a st Ha Hc Hr) as [out H].
      exists out. by repeat split.
Qed.

(** A query that is empty or not a string. *)
Lemma get_coordinates_rejected address st :
  address = PStr "" \/ isinstance_str address = false ->
  get_coordinates net address st = (Ok unresolved, st).
Proof.
  intros [-> | H]; [reflexivity|]. by destruct address.
Qed.

(** A reverse lookup: one request, the cache as it was, a result that does
    not depend on the cache. *)
Lemma get_postal_from_coords_run lat lng st :
  exists postal out,
    forall c,
      get_postal_from_coords net lat lng (mkState c (sent st) (printed st)) =
        (Ok postal, mkState c (sent st ++ [Reverse lat lng]) (printed st ++ out)).
Proof.
  unfold get_postal_from_coords, bind, try_except, fetch, lift, print, ret. simpl.
  destruct (net (sent st) (Reverse lat lng)) as [| |data]; simpl.
  - by exists PNone, [ErrorReverseGeocoding lat lng RequestException].
  - by exists PNone, [ErrorReverseGeocoding lat lng JSONDecodeError].
  - destruct (getitem data "status") as [status|e]; simpl;
      [|by exists PNone, [ErrorReverseGeocoding lat lng e]].
    destruct (eq_str status "OK"); simpl.
    + destruct (reverse_result data) as [[long_name|]|e]; simpl.
      * exists long_name, []. intros c. by rewrite app_nil_r.
      * exists PNone, []. intros c. by rewrite app_nil_r.
      * by exists PNone, [ErrorReverseGeocoding lat lng e].
    + exists PNone, []. intros c. by rewrite app_nil_r.
Qed.

End Service.

(** ** The geocoding service: the claims *)

(** C9.  A query that is empty or not a string is answered at once with
    the unresolved result [(None, None, None)]: the state after the call is
    the state before it, so no request was sent, the cache is as it was and
    nothing was printed. *)
Theorem empty_query_is_unresolved net address st :
  address = PStr "" \/ isinstance_str address = false ->
  get_coordinates net address st = (Ok unresolved, st).
Proof.
  intros [-> | H].
  - reflexivity.
  - destruct address; try reflexivity. discriminate H.
Qed.

(** The empty string and a number, with a service that would have answered. *)
Lemma empty_query_is_unresolved_witness :
  get_coordinates good_net (PStr "") initial = (Ok unresolved, initial)
  /\ get_coordinates good_net (PInt 7) initial = (Ok unresolved, initial).
Proof.
  split.
  - apply (empty_query_is_unresolved good_net (PStr "") initial). by left.
  - apply (empty_query_is_unresolved good_net (PInt 7) initial). by right.
Defined.

(** C10.  A reverse lookup never raises, sends exactly one request, leaves
    the cache as it was, and returns what it would return with any other
    cache; a second reverse lookup with the same coordinates sends a request
    again. *)
Theorem reverse_lookup_bypasses_cache net lat lng st :
  let first := get_postal_from_coords net lat lng st in
  let second := get_postal_from_coords net lat lng first.2 in
  (exists postal,
      first.1 = Ok postal
      /\ forall c, (get_postal_from_coords net lat lng
                      (mkState c (sent st) (printed st))).1 = Ok postal)
  /\ cache first.2 = cache st
  /\ sent first.2 = sent st ++ [Reverse lat lng]
  /\ cache second.2 = cache st
  /\ sent second.2 = sent st ++ [Reverse lat lng; Reverse lat lng].
Proof.
  intros first second.
  destruct (get_postal_from_coords_run net lat lng st) as (postal & out & H).
  assert (Hfirst : first = (Ok postal,
            mkState (cache st) (sent st ++ [Reverse lat lng]) (printed st ++ out))).
  { subst first. rewrite <- (state_eta st) at 1. apply H. }
  destruct (get_postal_from_coords_run net lat lng first.2) as (postal' & out' & H').
  assert (Hsecond : second.2 =
            mkState (cache st) ((sent st ++ [Reverse lat lng]) ++ [Reverse lat lng])
                    ((printed st ++ out) ++ out')).
  { subst second. rewrite <- (state_eta first.2) at 1. rewrite H'.
    by rewrite Hfirst. }
  rewrite Hsecond, Hfirst. simpl. repeat split.
  - exists postal. split; [done|]. intros c. by rewrite H.
  - by rewrite <- app_assoc.
Qed.

Lemma expected_components_yield components :
  forallb expected_component components = true ->
  exists postal_code, first_postal components = Ok postal_code.
Proof.
  induction components as [|c rest IH]; simpl; [by eexists|].
  intros H. apply andb_true_iff in H as [Hc Hrest].
  unfold expected_component in Hc.
  destruct (getitem c "types") as [[| | | | | |types|]|]; try discriminate.
  destruct (getitem c "long_name") as [[| | | | |long_name| |]|]; try discriminate.
  simpl. destruct (existsb _ types); simpl; [by eexists | by apply IH].
Qed.

(** A success of the expected shape with a result in it can be read. *)
Lemma expected_shape_readable data :
  expected_shape data = true -> status_ok data ->
  (exists results, member data "results" results /\ results <> PList []) ->
  exists g, readable data g.
Proof.
  unfold expected_shape. intros H _ (results & Hres & Hne).
  apply getitem_member in Hres. rewrite Hres in H.
  destruct (getitem data "status") as [[| | | | |status| |]|]; try discriminate.
  destruct results as [| | | | | |[|result rest]|]; try discriminate; [done|].
  simpl in H. apply andb_true_iff in H as [H _]. unfold expected_result in H.
  destruct (getitem result "geometry") as [geometry|] eqn:H1; [|discriminate].
  simpl in H.
  destruct (getitem geometry "location") as [location|] eqn:H2; [|discriminate].
  simpl in H.
  destruct (getitem location "lat") as [lat|] eqn:H3; [|discriminate]. simpl in H.
  destruct (getitem location "lng") as [lng|] eqn:H4; [|discriminate]. simpl in H.
  destruct (getitem result "address_components") as [components|] eqn:H5;
    [|discriminate].
  simpl in H. destruct components as [| | | | | |components|]; try discriminate.
  apply andb_true_iff in H as [_ H].
  destruct (expected_components_yield _ H) as [postal_code Hpc].
  exists (lat, lng, postal_code). apply forward_result_readable.
  unfold forward_result. rewrite Hres. simpl. rewrite H1. simpl. rewrite H2. simpl.
  rewrite H3. simpl. rewrite H4. simpl. rewrite H5. simpl. by rewrite Hpc.
Qed.

(** C2, as the code has it.  [get_coordinates] never raises.  When a lookup
    is made (a non-empty query that is not cached) and it fails (no
    response, a body that is not JSON, a status that is absent or not the
    success token, or a success from which lines 76-83 cannot read a
    result), the call returns the unresolved result, the cache is as it was,
    and calling again with the same query sends a request again.  When the
    lookup resolves, the result read is returned and cached whatever its
    latitude, longitude and postal code are.  The cache changes only by the
    result of a lookup that resolved.  A success from which no result can be
    read is not of the shape the specification expects, or has no result. *)
Theorem failed_lookup_is_unresolved_and_not_cached net address st :
  let first := get_coordinates net address st in
  let second := get_coordinates net address first.2 in
  (exists g, first.1 = Ok g)
  /\ (forall a,
        address = PStr a -> a <> "" -> cache st !! a = None ->
        lookup_fails (net (sent st) (Forward a)) ->
        first.1 = Ok unresolved
        /\ cache first.2 = cache st
        /\ sent first.2 = sent st ++ [Forward a]
        /\ sent second.2 = sent first.2 ++ [Forward a])
  /\ (forall a g,
        address = PStr a -> a <> "" -> cache st !! a = None ->
        lookup_resolves (net (sent st) (Forward a)) g ->
        first.1 = Ok g
        /\ cache first.2 = <[a := g]> (cache st)
        /\ sent first.2 = sent st ++ [Forward a]
        /\ second = (Ok g, first.2))
  /\ (cache first.2 <> cache st ->
        exists a g,
          address = PStr a
          /\ lookup_resolves (net (sent st) (Forward a)) g
          /\ first.1 = Ok g
          /\ cache first.2 = <[a := g]> (cache st))
  /\ (forall data,
        status_ok data -> (forall g, ~ readable data g) ->
        expected_shape data = false \/ member data "results" (PList [])).
Proof.
  intros first second.
  assert (Hrej : address = PStr "" \/ isinstance_str address = false ->
                 first = (Ok unresolved, st))
    by apply get_coordinates_rejected.
  split; [|split; [|split; [|split]]].
  - destruct address; try (exists unresolved; by rewrite Hrej; [|right]).
    destruct (decide (s = "")) as [->|Hs]; [exists unresolved; by rewrite Hrej; [|left]|].
    subst first.
    destruct (get_coordinates_cases net s st Hs)
      as [(g & _ & ->) | [(g & _ & _ & ->) | (out & _ & _ & ->)]]; eauto.
  - intros a -> Ha Hc Hf. apply resolution_fails in Hf.
    destruct (get_coordinates_failed net a st Ha Hc Hf) as [out H].
    subst second first. rewrite H. cbn [fst snd].
    repeat split.
    destruct (get_coordinates_cases net a
                (mkState (cache st) (sent st ++ [Forward a]) (printed st ++ out)) Ha)
      as [(g & Hc' & _) | [(g & _ & _ & ->) | (out' & _ & _ & ->)]]; try done.
    simpl in Hc'. congruence.
  - intros a g -> Ha Hc Hr. apply resolution_resolves in Hr.
    pose proof (get_coordinates_resolved net a g st Ha Hc Hr) as H.
    subst second first. rewrite H. cbn [fst snd cache sent].
    repeat split. apply get_coordinates_hit; [done|]. cbn [cache].
    by rewrite lookup_insert_eq.
  - intros Hneq.
    destruct address; try (exfalso; apply Hneq; by rewrite Hrej; [|right]).
    destruct (decide (s = "")) as [->|Hs];
      [exfalso; apply Hneq; by rewrite Hrej; [|left]|].
    subst first.
    destruct (get_coordinates_cases net s st Hs)
      as [(g & _ & H) | [(g & _ & Hr & H) | (out & _ & _ & H)]];
      rewrite H in Hneq |- *; simpl in *; try done.
    exists s, g. by apply resolution_resolves in Hr.
  - intros data Hs Hno.
    destruct (expected_shape data) eqn:Hshape; [|by left]. right.
    unfold expected_shape in Hshape.
    destruct (getitem data "status") as [[| | | | |status| |]|]; try discriminate.
    destruct (getitem data "results") as [[| | | | | |results|]|] eqn:Hres;
      try discriminate.
    apply getitem_member in Hres. destruct results as [|result rest]; [done|].
    exfalso.
    destruct (expected_shape_readable data) as [g Hg]; [| done | | by eapply Hno].
    + unfold expected_shape. apply getitem_member in Hres. rewrite Hres.
      destruct (getitem data "status") as [[| | | | |status'| |]|] eqn:Hst.
      all: try done.
      all: apply getitem_member in Hs; rewrite Hs in Hst; discriminate.
    + by exists (PList (result :: rest)).
Qed.

(** A service that reports no match. *)
Lemma failed_lookup_witness :
  (get_coordinates no_match_net (PStr "1 Main St") initial).1 = Ok unresolved
  /\ cache (get_coordinates no_match_net (PStr "1 Main St") initial).2 = cache initial
  /\ sent (get_coordinates no_match_net (PStr "1 Main St") initial).2
     = sent initial ++ [Forward "1 Main St"]
  /\ sent (get_coordinates no_match_net (PStr "1 Main St")
             (get_coordinates no_match_net (PStr "1 Main St") initial).2).2
     = sent (get_coordinates no_match_net (PStr "1 Main St") initial).2
         ++ [Forward "1 Main St"].
Proof.
  apply (proj1 (proj2 (failed_lookup_is_unresolved_and_not_cached
                         no_match_net (PStr "1 Main St") initial)) "1 Main St").
  - reflexivity.
  - discriminate.
  - reflexivity.
  - apply resolution_fails. reflexivity.
Defined.

(** C2, as the specification states it, fails: a success that is malformed
    in what its members hold, not in what members it has, is read, returned
    and cached, and the next call answers from the cache. *)
Lemma malformed_success_is_cached :
  let first := get_coordinates misshapen_net (PStr "1 Main St") initial in
  let second := get_coordinates misshapen_net (PStr "1 Main St") first.2 in
  expected_shape misshapen = false
  /\ first.1 = Ok (PStr "north", PList [], PNone)
  /\ cache first.2 !! "1 Main St" = Some (PStr "north", PList [], PNone)
  /\ second.1 = Ok (PStr "north", PList [], PNone)
  /\ sent second.2 = [Forward "1 Main St"].
Proof. vm_compute. repeat split. Qed.

(** C1, as the code has it.  When the first call resolves the query, from
    the cache or from a lookup that succeeds, and when the query is empty or
    not a string, a second call with the same query returns the same result
    and leaves the state as the first call left it: it sends no request. *)
Theorem resolved_query_is_idempotent net address st :
  address = PStr "" \/ isinstance_str address = false
  \/ (exists a, address = PStr a
        /\ (is_Some (cache st !! a)
            \/ exists g, lookup_resolves (net (sent st) (Forward a)) g)) ->
  let first := get_coordinates net address st in
  let second := get_coordinates net address first.2 in
  second.1 = first.1 /\ second.2 = first.2 /\ sent second.2 = sent first.2.
Proof.
  intros H first second.
  assert (second = first) as ->; [|done].
  subst second first.
  destruct H as [H | [H | (a & -> & H)]].
  - by rewrite !get_coordinates_rejected by (by left).
  - by rewrite !get_coordinates_rejected by (by right).
  - destruct (decide (a = "")) as [->|Ha].
    { by rewrite !get_coordinates_rejected by (by left). }
    destruct (get_coordinates_cases net a st Ha)
      as [(g & Hc & E) | [(g & Hc & Hr & E) | (out & Hc & Hr & E)]];
      rewrite E; cbn [fst snd].
    + exact E.
    + apply get_coordinates_hit; [done|]. simpl. by rewrite lookup_insert_eq.
    + exfalso. destruct H as [[g Hg] | [g Hg]]; [congruence|].
      apply resolution_resolves in Hg. congruence.
Qed.

(** A query that the first call resolves from a success of the service. *)
Lemma resolved_query_is_idempotent_witness :
  (get_coordinates good_net (PStr "1 Main St")
     (get_coordinates good_net (PStr "1 Main St") initial).2).1
  = (get_coordinates good_net (PStr "1 Main St") initial).1
  /\ (get_coordinates good_net (PStr "1 Main St")
        (get_coordinates good_net (PStr "1 Main St") initial).2).2
     = (get_coordinates good_net (PStr "1 Main St") initial).2
  /\ sent (get_coordinates good_net (PStr "1 Main St")
             (get_coordinates good_net (PStr "1 Main St") initial).2).2
     = sent (get_coordinates good_net (PStr "1 Main St") initial).2.
Proof.
  apply (resolved_query_is_idempotent good_net (PStr "1 Main St") initial).
  right. right. exists "1 Main St". split; [reflexivity|]. right.
  exists (PFloat (49 # 1), PFloat (-123 # 1), PStr "V5K 0A1").
  apply resolution_resolves. reflexivity.
Defined.

(** C1, as the specification states it, fails: a lookup that fails caches
    nothing, so the second call sends a request of its own and may get
    another answer.  Here the service does not answer the first request and
    answers the second. *)
Lemma repeated_query_after_failure :
  let first := get_coordinates flaky_net (PStr "1 Main St") initial in
  let second := get_coordinates flaky_net (PStr "1 Main St") first.2 in
  first.1 = Ok unresolved
  /\ second.1 = Ok (PFloat (49 # 1), PFloat (-123 # 1), PStr "V5K 0A1")
  /\ second.1 <> first.1
  /\ sent first.2 = [Forward "1 Main St"]
  /\ sent second.2 = [Forward "1 Main St"; Forward "1 Main St"].
Proof. vm_compute. repeat split. discriminate. Qed.

(** ** The matcher against what a pattern matches *)

Lemma star_sound p k s r :
  star p k s = Some r ->
  exists w s', s = w ++ s' /\ all_of p w /\ k s' = Some r.
Proof.
  revert r. induction s as [|c s IH]; simpl; intros r H.
  - exists [], []. by repeat split; [constructor|].
  - destruct (p c) eqn:Hp.
    + destruct (star p k s) as [r'|] eqn:Hs.
      * injection H as ->. destruct (IH _ eq_refl) as (w & s' & -> & Hw & Hk).
        exists (c :: w), s'. repeat split; [by constructor | done].
      * exists [], (c :: s). by repeat split; [constructor|].
    + exists [], (c :: s). by repeat split; [constructor|].
Qed.

Lemma match_here_sound atoms s r :
  match_here atoms s = Some r -> exists m, s = m ++ r /\ matches atoms m.
Proof.
  revert s r. induction atoms as [|[p|p|p] atoms IH]; simpl; intros s r H.
  - injection H as ->. exists []. split; [done | constructor].
  - destruct s as [|c s]; [discriminate|]. destruct (p c) eqn:Hp; [|discriminate].
    destruct (IH _ _ H) as (m & -> & Hm). exists (c :: m). split; [done|].
    by constructor.
  - destruct (star_sound _ _ _ _ H) as (w & s' & -> & Hw & Hk).
    destruct (IH _ _ Hk) as (m & -> & Hm). exists (w ++ m).
    split; [by rewrite app_assoc | by constructor].
  - assert (Hnone : forall s, match_here atoms s = Some r ->
                      exists m, s = m ++ r /\ matches (Opt p :: atoms) m).
    { intros s0 H0. destruct (IH _ _ H0) as (m & -> & Hm). exists m.
      split; [done | by apply matches_opt_none]. }
    destruct s as [|c s]; [by apply Hnone|].
    destruct (p c) eqn:Hp; [|by apply Hnone].
    destruct (match_here atoms s) as [r'|] eqn:Hs; [|by apply Hnone].
    injection H as ->. destruct (IH _ _ Hs) as (m & -> & Hm). exists (c :: m).
    split; [done | by apply matches_opt_one].
Qed.

Lemma matches_app a1 a2 m :
  matches (a1 ++ a2) m ->
  exists m1 m2, m = m1 ++ m2 /\ matches a1 m1 /\ matches a2 m2.
Proof.
  revert m. induction a1 as [|x a1 IH]; simpl; intros m H.
  - exists [], m. repeat split; [constructor | done].
  - inversion H as [|p at' c m' Hp Hm|p at' w m' Hw Hm|p at' c m' Hp Hm|p at' m' Hm];
      subst; destruct (IH _ Hm) as (m1 & m2 & -> & H1 & H2).
    + exists (c :: m1), m2. repeat split; [by constructor | done].
    + exists (w ++ m1), m2. split; [by rewrite app_assoc|]. split; [by constructor | done].
    + exists (c :: m1), m2. repeat split; [by apply matches_opt_one | done].
    + exists m1, m2. repeat split; [by apply matches_opt_none | done].
Qed.

Lemma matches_text_ci t m : matches (text_ci t) m -> same_ci m t.
Proof.
  revert m. induction t as [|c t IH]; simpl; intros m H; inversion H; subst.
  - constructor.
  - constructor; [by apply Ascii.eqb_eq | by apply IH].
Qed.

Lemma matches_star_last p m : matches [Star p] m -> all_of p m.
Proof.
  intros H. inversion H as [| |p' at' w m' Hw Hm| |]; subst.
  inversion Hm; subst. by rewrite app_nil_r.
Qed.

(** ** The postal-code pattern *)

Lemma matches_postal_shape m : matches postal_pattern m <-> postal_shape m.
Proof.
  unfold postal_pattern, postal_shape. split.
  - intros H.
    inversion H as [|? ? a m1 Ha H1| | |]; subst; clear H.
    inversion H1 as [|? ? b m2 Hb H2| | |]; subst; clear H1.
    inversion H2 as [|? ? c m3 Hc H3| | |]; subst; clear H2.
    assert (Hrest : forall m4,
              matches [Cls is_digit; Cls is_alpha; Cls is_digit] m4 ->
              exists d e f, m4 = [d; e; f]
                /\ is_digit d = true /\ is_alpha e = true /\ is_digit f = true).
    { intros m4 H4.
      inversion H4 as [|? ? d m5 Hd H5| | |]; subst; clear H4.
      inversion H5 as [|? ? e m6 He H6| | |]; subst; clear H5.
      inversion H6 as [|? ? f m7 Hf H7| | |]; subst; clear H6.
      inversion H7; subst. by exists d, e, f. }
    inversion H3 as [| | |? ? x m4 Hx H4|? ? m4 H4]; subst; clear H3;
      destruct (Hrest _ H4) as (d & e & f & -> & Hd & He & Hf).
    + exists a, b, c, [x], d, e, f. repeat split; try done. right. by exists x.
    + exists a, b, c, [], d, e, f. repeat split; try done. by left.
  - intros (a & b & c & w & d & e & f & -> & Ha & Hb & Hc & Hw & Hd & He & Hf).
    simpl. do 3 (constructor; [done|]).
    assert (Hrest : matches [Cls is_digit; Cls is_alpha; Cls is_digit] [d; e; f])
      by (do 3 (constructor; [done|]); constructor).
    destruct Hw as [-> | (x & -> & Hx)]; simpl.
    + by apply matches_opt_none.
    + by apply matches_opt_one.
Qed.

Lemma digit_not_space c : is_digit c = true -> is_space c = false.
Proof.
  unfold is_digit, is_space. intros H.
  apply andb_true_iff in H as [H1 H2].
  apply Nat.leb_le in H1, H2.
  repeat match goal with
         | |- context [(?a <=? ?b)%nat] => destruct (Nat.leb_spec a b)
         | |- context [(?a =? ?b)%nat] => destruct (Nat.eqb_spec a b)
         end; simpl; try reflexivity; lia.
Qed.

(** At a position where a postal code starts, the matcher finds it. *)
Lemma match_here_postal m r :
  postal_shape m -> match_here postal_pattern (m ++ r) = Some r.
Proof.
  intros (a & b & c & w & d & e & f & -> & Ha & Hb & Hc & Hw & Hd & He & Hf).
  destruct Hw as [-> | (x & -> & Hx)]; simpl.
  - rewrite Ha, Hb, Hc, (digit_not_space d Hd), Hd, He, Hf. reflexivity.
  - rewrite Ha, Hb, Hc, Hx, Hd, He, Hf. reflexivity.
Qed.

Lemma match_here_postal_inv s r :
  match_here postal_pattern s = Some r -> exists m, s = m ++ r /\ postal_shape m.
Proof.
  intros H. destruct (match_here_sound _ _ _ H) as (m & -> & Hm).
  exists m. split; [done | by apply matches_postal_shape].
Qed.

Lemma take_matched (m r : list ascii) : take (length (m ++ r) - length r) (m ++ r) = m.
Proof.
  rewrite length_app. replace (length m + length r - length r) with (length m) by lia.
  apply take_app_length.
Qed.

Lemma search_unfold atoms s :
  search atoms s =
    match match_here atoms s with
    | Some r => Some (take (length s - length r) s)
    | None => match s with [] => None | _ :: s' => search atoms s' end
    end.
Proof. by destruct s. Qed.

(** [re.search] returns the postal code that starts first. *)
Lemma search_first_postal s pre m post :
  first_postal_at s pre m post -> search postal_pattern s = Some m.
Proof.
  intros (-> & Hm & Hmin). induction pre as [|c pre IH].
  - rewrite search_unfold. simpl app.
    rewrite (match_here_postal m post Hm). by rewrite take_matched.
  - assert (Hhead : match_here postal_pattern ((c :: pre) ++ m ++ post) = None).
    { destruct (match_here postal_pattern ((c :: pre) ++ m ++ post)) as [r|] eqn:H;
        [|done].
      destruct (match_here_postal_inv _ _ H) as (m' & E & Hm').
      specialize (Hmin [] m' r E Hm'). simpl in Hmin. lia. }
    rewrite search_unfold, Hhead. simpl app. apply IH.
    intros pre' m' post' E Hm'.
    specialize (Hmin (c :: pre') m' post'). simpl in Hmin.
    rewrite E in Hmin. specialize (Hmin eq_refl Hm'). lia.
Qed.

Lemma search_found atoms s m :
  search atoms s = Some m ->
  exists pre post, s = pre ++ m ++ post /\ matches atoms m.
Proof.
  assert (Hhere : forall s r, match_here atoms s = Some r ->
            exists pre post,
              s = pre ++ take (length s - length r) s ++ post
              /\ matches atoms (take (length s - length r) s)).
  { intros s0 r H. destruct (match_here_sound _ _ _ H) as (m' & -> & Hm').
    exists [], r. by rewrite take_matched. }
  induction s as [|c s IH]; rewrite search_unfold.
  - destruct (match_here atoms []) as [r|] eqn:H; [|discriminate].
    intros E. destruct (Hhere _ _ H) as (pre & post & E' & Hm).
    exists pre, post. by replace m with (take (length (@nil ascii) - length r) (@nil ascii))
      by congruence.
  - destruct (match_here atoms (c :: s)) as [r|] eqn:H.
    + intros E. destruct (Hhere _ _ H) as (pre & post & E' & Hm).
      exists pre, post. by replace m with (take (length (c :: s) - length r) (c :: s))
        by congruence.
    + intros H'. destruct (IH H') as (pre & post & -> & Hm).
      by exists (c :: pre), post.
Qed.

Lemma search_no_postal s : no_postal s -> search postal_pattern s = None.
Proof.
  intros Hno. destruct (search postal_pattern s) as [m|] eqn:H; [|done].
  destruct (search_found _ _ _ H) as (pre & post & E & Hm).
  exfalso. apply (Hno pre m post E). by apply matches_postal_shape.
Qed.

Lemma search_postal_some pre m post :
  postal_shape m -> is_Some (search postal_pattern (pre ++ m ++ post)).
Proof.
  intros Hm. induction pre as [|c pre IH]; rewrite search_unfold.
  - simpl app. by rewrite (match_here_postal m post Hm).
  - destruct (match_here postal_pattern ((c :: pre) ++ m ++ post)); [done|].
    exact IH.
Qed.

Lemma search_none_no_postal s : search postal_pattern s = None -> no_postal s.
Proof.
  intros H pre m post -> Hm.
  destruct (search_postal_some pre m post Hm) as [m' Hm']. congruence.
Qed.

(** What [re.search] returns is a postal code of the text, and none starts
    before it. *)
Lemma search_some_first_postal s m :
  search postal_pattern s = Some m -> exists pre post, first_postal_at s pre m post.
Proof.
  assert (Hhere : forall s r, match_here postal_pattern s = Some r ->
            first_postal_at s [] (take (length s - length r) s) r).
  { intros s0 r H. destruct (match_here_postal_inv _ _ H) as (m' & -> & Hm').
    rewrite take_matched. repeat split; [done|]. intros; simpl; lia. }
  revert m. induction s as [|c s IH]; intros m; rewrite search_unfold.
  - destruct (match_here postal_pattern []) as [r|] eqn:H; [|discriminate].
    intros E. exists [], r.
    replace m with (take (length (@nil ascii) - length r) (@nil ascii)) by congruence.
    by apply Hhere.
  - destruct (match_here postal_pattern (c :: s)) as [r|] eqn:H.
    + intros E. exists [], r.
      replace m with (take (length (c :: s) - length r) (c :: s)) by congruence.
      by apply Hhere.
    + intros E. destruct (IH _ E) as (pre & post & -> & Hm & Hmin).
      exists (c :: pre), post. repeat split; [done|].
      intros [|c' pre'] m' post' E' Hm'.
      * simpl in E'. rewrite E', (match_here_postal m' post' Hm') in H. discriminate.
      * injection E' as -> E'. specialize (Hmin pre' m' post' E' Hm'). simpl. lia.
Qed.

(** ** Removing the city and the province *)

Lemma sub_from_no_match atoms s :
  (forall pre s', s = pre ++ s' -> match_here atoms s' = None) ->
  sub_from atoms 0 s = s.
Proof.
  induction s as [|c s IH]; intros H; [done|]. simpl.
  rewrite (H [] (c :: s) eq_refl). f_equal. apply IH.
  intros pre s' ->. by apply (H (c :: pre) s').
Qed.

Lemma matches_remove_pattern city province m :
  matches (remove_pattern city (text_ci province) None) m ->
  suffix_shape (text city) province m.
Proof.
  unfold remove_pattern. simpl. intros H.
  inversion H as [|? ? comma m1 Hcomma H1| | |]; subst; clear H.
  inversion H1 as [| |? ? w1 m2 Hw1 H2| |]; subst; clear H1.
  apply matches_app in H2 as (c & m3 & -> & Hc & H3).
  apply matches_text_ci in Hc.
  inversion H3 as [| |? ? w2 m4 Hw2 H4| |]; subst; clear H3.
  assert (Htail : forall m5,
            matches (Star is_space :: text_ci province ++ [Star is_space]) m5 ->
            exists w3 p w4, m5 = w3 ++ p ++ w4
              /\ all_of is_space w3 /\ same_ci p province /\ all_of is_space w4).
  { intros m5 H5.
    inversion H5 as [| |? ? w3 m6 Hw3 H6| |]; subst; clear H5.
    apply matches_app in H6 as (p & w4 & -> & Hp & Hw4).
    apply matches_text_ci in Hp. apply matches_star_last in Hw4.
    by exists w3, p, w4. }
  inversion H4 as [| | |? ? x m5 Hx H5|? ? m5 H5]; subst; clear H4;
    destruct (Htail _ H5) as (w3 & p & w4 & -> & Hw3 & Hp & Hw4).
  - exists comma, w1, c, w2, [x], w3, p, w4.
    repeat split; try done; [by apply Ascii.eqb_eq|].
    right. exists x. split; [done | by apply Ascii.eqb_eq].
  - exists comma, w1, c, w2, [], w3, p, w4.
    repeat split; try done; [by apply Ascii.eqb_eq | by left].
Qed.

Lemma sub_no_suffix city province s :
  no_suffix (text city) province s ->
  sub (remove_pattern city (text_ci province) None) s = s.
Proof.
  intros Hno. apply sub_from_no_match. intros pre s' -> .
  destruct (match_here _ s') as [r|] eqn:H; [|done].
  destruct (match_here_sound _ _ _ H) as (m & -> & Hm).
  exfalso. apply (Hno pre m r eq_refl). by apply matches_remove_pattern.
Qed.

(** ** The address cleaner: the claims *)

(** C6.  With a province that is a plain text (as the one the pipeline
    passes, "British Columbia"): when the address holds a postal code
    (letter, digit, letter, at most one space character, digit, letter,
    digit), [clean_bc_address] returns as postal code the one that starts
    first; when it holds none, it returns [None] for it; and on the address
    of the specification's second scenario it returns
    [("123 Main St", "V5K0A1")]. *)
Theorem extracted_postal_code_is_first_match render address city province :
  is_Some (plain_pattern province) ->
  (forall pre m post,
      first_postal_at (text address) pre m post ->
      exists cleaned,
        clean_bc_address render (PStr address) city province = Some (cleaned, PText m))
  /\ (no_postal (text address) ->
      exists cleaned,
        clean_bc_address render (PStr address) city province = Some (cleaned, PNone))
  /\ clean_bc_address render
       (PStr "123 Main St, Vancouver, British Columbia V5K0A1")
       (PStr "Vancouver") "British Columbia"
     = Some (PStr "123 Main St", PStr "V5K0A1").
Proof.
  intros [pattern Hp]. unfold clean_bc_address. rewrite Hp. repeat split.
  - intros pre m post H. rewrite (search_first_postal _ _ _ _ H). eauto.
  - intros H. rewrite (search_no_postal _ H). eauto.
Qed.

(** An address with two postal codes: the first one, in lower case and with a
    space, is the one returned. *)
Lemma extracted_postal_code_witness :
  is_Some (plain_pattern "British Columbia")
  /\ exists cleaned,
       clean_bc_address sample_render
         (PStr "Unit 4 - 88 West Pender St, Vancouver, British Columbia v6b 6n9 (near T2X1A4)")
         (PStr "Vancouver") "British Columbia"
       = Some (cleaned, PStr "v6b 6n9").
Proof.
  assert (Hplain : is_Some (plain_pattern "British Columbia")) by (by eexists).
  split; [exact Hplain|].
  destruct (search_some_first_postal
              (text "Unit 4 - 88 West Pender St, Vancouver, British Columbia v6b 6n9 (near T2X1A4)")
              (text "v6b 6n9") eq_refl) as (pre & post & H).
  exact (proj1 (extracted_postal_code_is_first_match sample_render _
                  (PStr "Vancouver") "British Columbia" Hplain) pre _ post H).
Defined.

(** ** The matcher finds what the pattern matches *)

Lemma star_complete p k w s' :
  all_of p w -> is_Some (k s') -> is_Some (star p k (w ++ s')).
Proof.
  intros Hw Hk. induction Hw as [|c w Hc Hw IH]; simpl.
  - destruct s' as [|c s'']; [done|]. simpl. destruct (p c); [|done].
    by destruct (star p k s'').
  - rewrite Hc. by destruct IH as [r ->].
Qed.

Lemma match_here_complete atoms m r :
  matches atoms m -> is_Some (match_here atoms (m ++ r)).
Proof.
  induction 1 as [|p atoms c m Hp Hm IH|p atoms w m Hw Hm IH
                  |p atoms c m Hp Hm IH|p atoms m Hm IH]; simpl.
  - done.
  - by rewrite Hp.
  - rewrite <- app_assoc. by apply star_complete.
  - rewrite Hp. by destruct IH as [r' ->].
  - destruct (m ++ r) as [|c s] eqn:E; [done|].
    destruct (p c); [|done]. by destruct (match_here atoms s).
Qed.

Lemma matches_app_intro a1 a2 m1 m2 :
  matches a1 m1 -> matches a2 m2 -> matches (a1 ++ a2) (m1 ++ m2).
Proof.
  intros H1 H2.
  induction H1 as [|p atoms c m Hp Hm IH|p atoms w m Hw Hm IH
                   |p atoms c m Hp Hm IH|p atoms m Hm IH]; simpl.
  - done.
  - by constructor.
  - rewrite <- app_assoc. by constructor.
  - by apply matches_opt_one.
  - by apply matches_opt_none.
Qed.

Lemma matches_text_ci_intro t m : same_ci m t -> matches (text_ci t) m.
Proof.
  induction 1 as [|x c m t Hx Hm IH]; simpl; [constructor|].
  constructor; [by apply Ascii.eqb_eq | done].
Qed.

Lemma remove_pattern_None city province :
  remove_pattern city province None =
    lit_ci ","%char :: Star is_space :: text_ci (text city)
    ++ Star is_space :: Opt (same_letter ","%char) :: Star is_space
    :: province ++ [Star is_space].
Proof. reflexivity. Qed.

Lemma suffix_shape_matches city province m :
  suffix_shape (text city) province m ->
  matches (remove_pattern city (text_ci province) None) m.
Proof.
  intros (comma & w1 & c & w2 & k & w3 & p & w4 & -> & Hcomma & Hw1 & Hc & Hw2 & Hk
          & Hw3 & Hp & Hw4).
  rewrite remove_pattern_None.
  constructor; [by apply Ascii.eqb_eq|]. constructor; [done|].
  apply matches_app_intro; [by apply matches_text_ci_intro|].
  constructor; [done|].
  assert (Htail : matches (Star is_space :: text_ci province ++ [Star is_space])
                    (w3 ++ p ++ w4)).
  { constructor; [done|]. apply matches_app_intro; [by apply matches_text_ci_intro|].
    rewrite <- (app_nil_r w4). constructor; [done | constructor]. }
  destruct Hk as [-> | (x & -> & Hx)]; simpl.
  - by apply matches_opt_none.
  - apply matches_opt_one; [by apply Ascii.eqb_eq | done].
Qed.

Lemma search_none_inv atoms s pre s' :
  search atoms s = None -> s = pre ++ s' -> match_here atoms s' = None.
Proof.
  revert s. induction pre as [|c pre IH]; intros s H E; subst s;
    rewrite search_unfold in H; simpl app in H.
  - by destruct (match_here atoms s').
  - destruct (match_here atoms (c :: pre ++ s')); [discriminate|].
    by eapply IH.
Qed.

(** When [re.search] finds no match of the pattern of line 125, the text
    holds no occurrence of what it removes. *)
Lemma search_none_no_suffix city province s :
  search (remove_pattern city (text_ci province) None) s = None ->
  no_suffix (text city) province s.
Proof.
  intros H pre m post E Hm.
  pose proof (search_none_inv _ _ pre (m ++ post) H E) as Hnone.
  destruct (match_here_complete _ m post (suffix_shape_matches _ _ _ Hm)) as [r Hr].
  congruence.
Qed.

(** ** The match of the pattern of line 125 *)

Lemma star_exact p k w s' r :
  all_of p w -> (forall c rest, s' = c :: rest -> p c = false) -> k s' = Some r ->
  star p k (w ++ s') = Some r.
Proof.
  intros Hw Hs Hk. induction Hw as [|c w Hc Hw IH]; simpl.
  - destruct s' as [|c s'']; [done|]. simpl. by rewrite (Hs c s'' eq_refl).
  - by rewrite Hc, IH.
Qed.

Lemma match_here_text_ci t atoms c s :
  same_ci c t -> match_here (text_ci t ++ atoms) (c ++ s) = match_here atoms s.
Proof.
  induction 1 as [|x c0 m t Hx Hm IH]; simpl; [done|].
  unfold same_letter. rewrite Hx, Ascii.eqb_refl. exact IH.
Qed.

Lemma lower_space c : is_space (lower c) = is_space c.
Proof. destruct c as [[] [] [] [] [] [] [] []]; vm_compute; reflexivity. Qed.

Lemma lower_comma x : lower x = lower ","%char -> x = ","%char.
Proof.
  destruct x as [[] [] [] [] [] [] [] []]; vm_compute; intros H;
    try reflexivity; discriminate H.
Qed.

(** What matches a text that begins with a character that is no white space
    begins with one too. *)
Lemma same_ci_head p t s :
  same_ci p t -> begins_with no_space t ->
  forall c rest, p ++ s = c :: rest -> is_space c = false.
Proof.
  intros Hp (c0 & t' & -> & Hc0) c rest E.
  inversion Hp as [|x ? p' ? Hx Hp']; subst. injection E as <- _.
  rewrite <- lower_space, Hx, lower_space. by apply negb_true_iff.
Qed.

Lemma match_here_after_city province w3 p w4 post :
  begins_with no_space province ->
  all_of is_space w3 -> same_ci p province -> all_of is_space w4 ->
  (forall c rest, post = c :: rest -> is_space c = false) ->
  match_here (Star is_space :: text_ci province ++ [Star is_space])
    (w3 ++ p ++ w4 ++ post) = Some post.
Proof.
  intros Hprov Hw3 Hp Hw4 Hpost.
  change (star is_space (match_here (text_ci province ++ [Star is_space]))
            (w3 ++ p ++ w4 ++ post) = Some post).
  apply star_exact; [done | by eapply same_ci_head|].
  rewrite match_here_text_ci by done.
  change (star is_space (match_here []) (w4 ++ post) = Some post).
  by apply star_exact.
Qed.

(** With a city that begins with a character that is no white space and a
    province that begins with one that is neither white space nor a comma,
    the matcher takes an occurrence with all the white space after it. *)
Lemma match_here_suffix city province m post :
  begins_with no_space (text city) -> begins_with no_space_no_comma province ->
  suffix_shape (text city) province m ->
  (forall c rest, post = c :: rest -> is_space c = false) ->
  match_here (remove_pattern city (text_ci province) None) (m ++ post) = Some post.
Proof.
  intros Hcity Hprov
    (comma & w1 & c & w2 & k & w3 & p & w4 & -> & Hcomma & Hw1 & Hc & Hw2 & Hk
     & Hw3 & Hp & Hw4) Hpost.
  assert (Hprov' : begins_with no_space province).
  { destruct Hprov as (c0 & t & -> & H0). exists c0, t. split; [done|].
    by apply andb_true_iff in H0 as [? _]. }
  rewrite remove_pattern_None.
  change (match_here (lit_ci ","%char :: ?atoms) ((comma :: ?s) ++ post))
    with (if same_letter ","%char comma then match_here atoms (s ++ post) else None).
  unfold same_letter at 1. rewrite Hcomma, Ascii.eqb_refl.
  rewrite <- !app_assoc.
  change (star is_space
            (match_here (text_ci (text city)
                         ++ Star is_space :: Opt (same_letter ","%char)
                            :: Star is_space :: text_ci province ++ [Star is_space]))
            (w1 ++ c ++ w2 ++ k ++ w3 ++ p ++ w4 ++ post) = Some post).
  apply star_exact; [done | by eapply same_ci_head|].
  rewrite match_here_text_ci by done.
  pose proof (match_here_after_city province w3 p w4 post Hprov' Hw3 Hp Hw4 Hpost)
    as Htail.
  destruct Hk as [-> | (x & -> & Hx)].
  - (* no comma between the city and the province *)
    simpl app at 2.
    change (star is_space
              (match_here (Opt (same_letter ","%char)
                           :: Star is_space :: text_ci province ++ [Star is_space]))
              (w2 ++ w3 ++ p ++ w4 ++ post) = Some post).
    rewrite app_assoc. apply star_exact.
    + by apply Forall_app.
    + by eapply same_ci_head.
    + destruct Hprov as (c0 & t & -> & H0).
      inversion Hp as [|y ? p' ? Hy Hp']; subst.
      change (match_here (Opt (same_letter ","%char) :: ?atoms) ((y :: ?s) ++ ?s'))
        with (if same_letter ","%char y
              then match match_here atoms (s ++ s') with
                   | Some r => Some r
                   | None => match_here atoms (y :: s ++ s')
                   end
              else match_here atoms (y :: s ++ s')).
      assert (Hy' : same_letter ","%char y = false).
      { apply andb_true_iff in H0 as [_ H0]. apply negb_true_iff in H0.
        unfold same_letter in *. by rewrite Hy. }
      rewrite Hy'.
      apply (match_here_after_city (c0 :: t) [] (y :: p') w4 post); try done.
      constructor.
  - (* a comma between them *)
    change (star is_space
              (match_here (Opt (same_letter ","%char)
                           :: Star is_space :: text_ci province ++ [Star is_space]))
              (w2 ++ [x] ++ w3 ++ p ++ w4 ++ post) = Some post).
    apply star_exact; [done | |].
    + intros c' rest [= <- _]. apply lower_comma in Hx as ->. reflexivity.
    + change (match_here (Opt (same_letter ","%char) :: ?atoms) ([x] ++ ?s))
        with (if same_letter ","%char x
              then match match_here atoms s with
                   | Some r => Some r
                   | None => match_here atoms (x :: s)
                   end
              else match_here atoms (x :: s)).
      unfold same_letter at 1. rewrite Hx, Ascii.eqb_refl. by rewrite Htail.
Qed.

(** ** [re.sub] on the first occurrence *)

Lemma sub_from_skip atoms m post :
  sub_from atoms (length m) (m ++ post) = sub_from atoms 0 post.
Proof. induction m as [|c m IH]; [done | exact IH]. Qed.

Lemma sub_from_match atoms m post :
  m <> [] -> match_here atoms (m ++ post) = Some post ->
  sub_from atoms 0 (m ++ post) = sub_from atoms 0 post.
Proof.
  destruct m as [|c m]; [done|]. intros _ H.
  change (sub_from atoms 0 ((c :: m) ++ post))
    with (match match_here atoms ((c :: m) ++ post) with
          | Some r =>
              match length ((c :: m) ++ post) - length r with
              | S k => sub_from atoms k (m ++ post)
              | O => c :: sub_from atoms 0 (m ++ post)
              end
          | None => c :: sub_from atoms 0 (m ++ post)
          end).
  rewrite H.
  replace (length ((c :: m) ++ post) - length post) with (S (length m))
    by (rewrite length_app; simpl; lia).
  apply sub_from_skip.
Qed.

Lemma sub_from_first atoms pre rest :
  (forall pre1 pre2, pre = pre1 ++ pre2 -> pre2 <> [] ->
     match_here atoms (pre2 ++ rest) = None) ->
  sub_from atoms 0 (pre ++ rest) = pre ++ sub_from atoms 0 rest.
Proof.
  induction pre as [|c pre IH]; intros H; [done|].
  assert (H0 : match_here atoms (c :: pre ++ rest) = None)
    by (by apply (H [] (c :: pre))).
  simpl app.
  change (sub_from atoms 0 (c :: pre ++ rest))
    with (match match_here atoms (c :: pre ++ rest) with
          | Some r =>
              match length (c :: pre ++ rest) - length r with
              | S k => sub_from atoms k (pre ++ rest)
              | O => c :: sub_from atoms 0 (pre ++ rest)
              end
          | None => c :: sub_from atoms 0 (pre ++ rest)
          end).
  rewrite H0. f_equal. apply IH.
  intros pre1 pre2 -> Hne. by apply (H (c :: pre1) pre2).
Qed.

Lemma sub_without_suffixes city province s t :
  begins_with no_space (text city) -> begins_with no_space_no_comma province ->
  without_suffixes (text city) province s t ->
  sub (remove_pattern city (text_ci province) None) s = t.
Proof.
  intros Hcity Hprov.
  induction 1 as [s Hno|s pre m post t (-> & Hm & Hpost & Hfirst) _ IH].
  - by apply sub_no_suffix.
  - unfold sub in *. rewrite sub_from_first.
    + f_equal. rewrite sub_from_match; [exact IH | |by apply match_here_suffix].
      destruct Hm as (comma & w1 & c & w2 & k & w3 & p & w4 & -> & _). done.
    + intros pre1 pre2 -> Hne.
      destruct (match_here _ (pre2 ++ m ++ post)) as [r|] eqn:H; [|done].
      destruct (match_here_sound _ _ _ H) as (m' & E & Hm').
      apply matches_remove_pattern in Hm'.
      specialize (Hfirst pre1 m' r). rewrite <- app_assoc, E in Hfirst.
      specialize (Hfirst eq_refl Hm'). rewrite length_app in Hfirst.
      destruct pre2; [done|]. simpl in Hfirst. lia.
Qed.

(** ** Trimming *)

Lemma lstrip_split s : exists w, s = w ++ lstrip s /\ all_of is_space w.
Proof.
  induction s as [|c s (w & IH & Hw)]; [by exists []; split; [|constructor]|]. simpl.
  destruct (is_space c) eqn:Hc.
  - exists (c :: w). simpl. split; [by rewrite <- IH | by constructor].
  - exists []. split; [done | constructor].
Qed.

Lemma lstrip_head s c rest : lstrip s = c :: rest -> is_space c = false.
Proof.
  induction s as [|c0 s IH]; [discriminate|]. simpl.
  destruct (is_space c0) eqn:Hc0; [exact IH|]. by intros [= <- _].
Qed.

(** [strip] cuts the white space off the two ends and nothing else. *)
Lemma strip_trimmed_of s : trimmed_of s (strip s).
Proof.
  unfold strip. destruct (lstrip_split s) as (w1 & H1 & Hw1).
  destruct (lstrip_split (rev (lstrip s))) as (w2 & H2 & Hw2).
  assert (Hu : lstrip s = rev (lstrip (rev (lstrip s))) ++ rev w2).
  { rewrite <- (rev_involutive (lstrip s)) at 1. rewrite H2 at 1.
    by rewrite rev_app_distr. }
  exists w1, (rev w2). split; [by rewrite <- Hu|]. split; [done|].
  split; [by apply Forall_rev|]. split.
  - intros c rest H. rewrite H in Hu. by eapply lstrip_head.
  - intros front c H.
    assert (Hy : lstrip (rev (lstrip s)) = c :: rev front).
    { rewrite <- (rev_involutive (lstrip (rev (lstrip s)))), H, rev_app_distr.
      by simpl. }
    by eapply lstrip_head.
Qed.

(** ** The address cleaner: the claim on addresses without postal code *)

(** C7, as the code has it.  With a province that is a plain text: when
    the address holds no postal code, [clean_bc_address] returns [None] as
    postal code.  When moreover the address holds no occurrence of a comma,
    the city, at most one comma and the province (any white space between
    and after them, letters in either case), the cleaned address is the
    address without the white space at its two ends.  And when it holds such
    occurrences (the city beginning with a character that is no white
    space, the province with one that is neither white space nor a comma),
    the cleaned address is the address without them, the leftmost first and
    each with all the white space after it, and then without the white
    space at its two ends. *)
Theorem address_without_postal_code render address city province :
  is_Some (plain_pattern province) ->
  no_postal (text address) ->
  exists cleaned,
    clean_bc_address render (PStr address) city province = Some (PText cleaned, PNone)
    /\ (no_suffix (text (str_ render city)) (text province) (text address) ->
        trimmed_of (text address) cleaned)
    /\ (begins_with no_space (text (str_ render city)) ->
        begins_with no_space_no_comma (text province) ->
        forall t,
          without_suffixes (text (str_ render city)) (text province) (text address) t ->
          trimmed_of t cleaned).
Proof.
  intros [pattern Hp] Hno. unfold clean_bc_address. rewrite Hp.
  rewrite (search_no_postal _ Hno).
  eexists. split; [reflexivity|].
  unfold plain_pattern in Hp. destruct (existsb _ _); [discriminate|].
  injection Hp as <-. split.
  - intros Hsuffix. rewrite sub_no_suffix by done. apply strip_trimmed_of.
  - intros Hcity Hprov t Ht. fold (text province).
    rewrite (sub_without_suffixes _ _ _ _ Hcity Hprov Ht). apply strip_trimmed_of.
Qed.

(** The first occurrence, found by trying the positions in turn. *)
Lemma first_suffix_at_found city province s n m post :
  drop n s = m ++ post ->
  forallb
    (fun k =>
       from_option (fun _ => false) true
         (match_here (remove_pattern city (text_ci province) None) (drop k s)))
    (seq 0 n) = true ->
  match_here (remove_pattern city (text_ci province) None) (drop n s) = Some post ->
  (forall c rest, post = c :: rest -> is_space c = false) ->
  first_suffix_at (text city) province s (take n s) m post.
Proof.
  intros Hdrop Hbefore Hmatch Hpost. split; [|split; [|split; [done|]]].
  - by rewrite <- Hdrop, take_drop.
  - destruct (match_here_sound _ _ _ Hmatch) as (m0 & E & Hm0).
    rewrite Hdrop in E. apply app_inv_tail in E as ->.
    by apply matches_remove_pattern.
  - intros pre' m' post' E Hm'. rewrite length_take.
    destruct (decide (n <= length pre')) as [|Hlt]; [lia|]. exfalso.
    rewrite forallb_forall in Hbefore.
    specialize (Hbefore (length pre')). rewrite in_seq in Hbefore.
    assert (Hd : drop (length pre') s = m' ++ post')
      by (by rewrite E, drop_app_length).
    rewrite Hd in Hbefore.
    destruct (match_here_complete _ m' post' (suffix_shape_matches _ _ _ Hm'))
      as [r Hr].
    rewrite Hr in Hbefore. simpl in Hbefore.
    assert (false = true) by (apply Hbefore; lia). discriminate.
Qed.

(** An address with neither postal code nor city, and one that ends with
    its city and province; both with white space around them. *)
Lemma address_without_postal_code_witness :
  is_Some (plain_pattern "British Columbia")
  /\ no_postal (text "  12 Harbour Rd  ")
  /\ no_suffix (text "Tofino") (text "British Columbia") (text "  12 Harbour Rd  ")
  /\ (exists cleaned,
        clean_bc_address sample_render (PStr "  12 Harbour Rd  ") (PStr "Tofino")
          "British Columbia" = Some (PText cleaned, PNone)
        /\ trimmed_of (text "  12 Harbour Rd  ") cleaned
        /\ PText cleaned = PStr "12 Harbour Rd")
  /\ no_postal (text "  1 Main St, Vancouver, British Columbia  ")
  /\ begins_with no_space (text "Vancouver")
  /\ begins_with no_space_no_comma (text "British Columbia")
  /\ without_suffixes (text "Vancouver") (text "British Columbia")
       (text "  1 Main St, Vancouver, British Columbia  ") (text "  1 Main St")
  /\ exists cleaned,
       clean_bc_address sample_render
         (PStr "  1 Main St, Vancouver, British Columbia  ") (PStr "Vancouver")
         "British Columbia" = Some (PText cleaned, PNone)
       /\ trimmed_of (text "  1 Main St") cleaned
       /\ PText cleaned = PStr "1 Main St".
Proof.
  assert (Hplain : is_Some (plain_pattern "British Columbia")) by (by eexists).
  assert (Hno1 : no_postal (text "  12 Harbour Rd  "))
    by (apply search_none_no_postal; vm_compute; reflexivity).
  assert (Hsuffix1 : no_suffix (text "Tofino") (text "British Columbia")
                       (text "  12 Harbour Rd  "))
    by (apply (search_none_no_suffix "Tofino"); vm_compute; reflexivity).
  assert (Hno2 : no_postal (text "  1 Main St, Vancouver, British Columbia  "))
    by (apply search_none_no_postal; vm_compute; reflexivity).
  assert (Hcity : begins_with no_space (text "Vancouver"))
    by (by eexists _, _).
  assert (Hprov : begins_with no_space_no_comma (text "British Columbia"))
    by (by eexists _, _).
  assert (Hwithout : without_suffixes (text "Vancouver") (text "British Columbia")
                       (text "  1 Main St, Vancouver, British Columbia  ")
                       (text "  1 Main St")).
  { change (text "  1 Main St") with (text "  1 Main St" ++ []).
    apply (suffixes_first _ _ _ (text "  1 Main St")
             (text ", Vancouver, British Columbia  ") []).
    - apply (first_suffix_at_found "Vancouver" (text "British Columbia")
               (text "  1 Main St, Vancouver, British Columbia  ") 11).
      + reflexivity.
      + vm_compute. reflexivity.
      + vm_compute. reflexivity.
      + discriminate.
    - apply suffixes_none. apply (search_none_no_suffix "Vancouver").
      vm_compute. reflexivity. }
  split; [exact Hplain|]. split; [exact Hno1|]. split; [exact Hsuffix1|]. split.
  { destruct (address_without_postal_code sample_render "  12 Harbour Rd  "
                (PStr "Tofino") "British Columbia" Hplain Hno1)
      as (cleaned & Hcleaned & Htrimmed & _).
    exists cleaned. split; [exact Hcleaned|]. split; [exact (Htrimmed Hsuffix1)|].
    assert (Hrun : clean_bc_address sample_render (PStr "  12 Harbour Rd  ")
                     (PStr "Tofino") "British Columbia"
                   = Some (PStr "12 Harbour Rd", PNone)) by reflexivity.
    congruence. }
  split; [exact Hno2|]. split; [exact Hcity|]. split; [exact Hprov|].
  split; [exact Hwithout|].
  destruct (address_without_postal_code sample_render
              "  1 Main St, Vancouver, British Columbia  "
              (PStr "Vancouver") "British Columbia" Hplain Hno2)
    as (cleaned & Hcleaned & _ & Hremoved).
  exists cleaned. split; [exact Hcleaned|].
  split; [exact (Hremoved Hcity Hprov _ Hwithout)|].
  assert (Hrun : clean_bc_address sample_render
                   (PStr "  1 Main St, Vancouver, British Columbia  ")
                   (PStr "Vancouver") "British Columbia"
                 = Some (PStr "1 Main St", PNone)) by reflexivity.
  congruence.
Defined.

(** C7, as the specification states it, fails: an address without postal
    code that ends in its city and province comes back without them. *)
Lemma city_and_province_are_removed :
  no_postal (text "1 Main St, Vancouver, British Columbia")
  /\ clean_bc_address sample_render (PStr "1 Main St, Vancouver, British Columbia")
       (PStr "Vancouver") "British Columbia"
     = Some (PStr "1 Main St", PNone)
  /\ PText (strip (text "1 Main St, Vancouver, British Columbia"))
     = PStr "1 Main St, Vancouver, British Columbia".
Proof.
  split; [by apply search_none_no_postal|]. split; reflexivity.
Qed.

(** ** The retry loop and the row *)

Arguments get_coordinates : simpl never.
Arguments get_postal_from_coords : simpl never.

Section Rows.

Variable net : list request -> request -> reply.
Variable render : pyval -> string.
Variable max_retries : Z.

Lemma get_coordinates_total address st :
  exists g st', get_coordinates net address st = (Ok g, st').
Proof.
  destruct address;
    try (exists unresolved, st; apply get_coordinates_rejected; by right).
  destruct (decide (s = "")) as [->|Hs].
  { exists unresolved, st. apply get_coordinates_rejected. by left. }
  destruct (get_coordinates_cases net s st Hs)
    as [(g & _ & ->) | [(g & _ & _ & ->) | (out & _ & _ & ->)]]; eauto.
Qed.

Lemma retry_S q attempt n last st :
  retry net max_retries q attempt (S n) last st =
    match get_coordinates net (PStr q) st with
    | (Ok g, st') =>
        if negb (is_none g.1.1) && negb (is_none g.1.2) then (Ok g, st')
        else retry net max_retries q (S attempt) n g
               (mkState (cache st') (sent st')
                  (printed st' ++ [RetryFailed attempt max_retries q]))
    | (Raise e, st') => (Raise e, st')
    end.
Proof.
  simpl retry. unfold bind at 1.
  destruct (get_coordinates net (PStr q) st) as [[g|e] st']; [|done].
  by destruct (negb (is_none g.1.1) && negb (is_none g.1.2)).
Qed.

Lemma retry_total q attempt n last st :
  exists g st', retry net max_retries q attempt n last st = (Ok g, st').
Proof.
  revert attempt last st. induction n as [|n IH]; intros attempt last st.
  - by exists last, st.
  - rewrite retry_S.
    destruct (get_coordinates_total (PStr q) st) as (g & st1 & ->).
    destruct (negb (is_none g.1.1) && negb (is_none g.1.2)).
    + by exists g, st1.
    + apply IH.
Qed.

(** Every attempt fails: as many requests as attempts, nothing cached, the
    unresolved result. *)
Lemma retry_all_fail q attempt n last st :
  q <> "" -> cache st !! q = None ->
  (forall k, k < n ->
     resolution (net (sent st ++ replicate k (Forward q)) (Forward q)) = None) ->
  exists out,
    retry net max_retries q attempt n last st =
      (Ok (match n with O => last | S _ => unresolved end),
       mkState (cache st) (sent st ++ replicate n (Forward q)) (printed st ++ out)).
Proof.
  intros Hq. revert attempt last st. induction n as [|n IH]; intros attempt last st Hc Hf.
  - exists []. simpl. rewrite !app_nil_r. by rewrite state_eta.
  - rewrite retry_S.
    assert (H0 : resolution (net (sent st) (Forward q)) = None).
    { specialize (Hf 0). simpl in Hf. rewrite app_nil_r in Hf. apply Hf. lia. }
    destruct (get_coordinates_failed net q st Hq Hc H0) as [out1 ->].
    cbn [unresolved fst snd is_none negb andb cache sent printed].
    edestruct (IH (S attempt) unresolved
                 (mkState (cache st) (sent st ++ [Forward q])
                    ((printed st ++ out1) ++ [RetryFailed attempt max_retries q])))
      as [out2 ->]; [done | |].
    { intros k Hk. cbn [sent]. rewrite <- app_assoc. apply (Hf (S k)). lia. }
    cbn [cache sent printed]. eexists (out1 ++ [_] ++ out2).
    f_equal; [by destruct n|]. f_equal.
    + by rewrite <- app_assoc.
    + by rewrite <- !app_assoc.
Qed.

Lemma get_coordinates_paired address st g st' :
  service_paired net -> cache_paired st ->
  get_coordinates net address st = (Ok g, st') ->
  paired g /\ cache_paired st'.
Proof.
  intros Hnet Hcache H.
  assert (Hrej : address = PStr "" \/ isinstance_str address = false ->
                 paired g /\ cache_paired st').
  { intros Hr. rewrite get_coordinates_rejected in H by done.
    injection H as <- <-. by split. }
  destruct address; try (apply Hrej; by right).
  destruct (decide (s = "")) as [->|Hs]; [apply Hrej; by left|].
  destruct (get_coordinates_cases net s st Hs)
    as [(g' & Hc & E) | [(g' & Hc & Hr & E) | (out & Hc & Hr & E)]];
    rewrite E in H; injection H as <- <-.
  - split; [by eapply Hcache | done].
  - apply resolution_resolves in Hr. pose proof (Hnet _ _ _ Hr) as Hp.
    split; [done|]. intros a g. cbn [cache].
    destruct (decide (s = a)) as [->|Hne].
    + rewrite lookup_insert_eq. by intros [= <-].
    + rewrite lookup_insert_ne by done. apply Hcache.
  - split; [done|]. intros a g. cbn [cache]. apply Hcache.
Qed.

Lemma retry_paired q attempt n last st g st' :
  service_paired net -> cache_paired st -> paired last ->
  retry net max_retries q attempt n last st = (Ok g, st') ->
  paired g /\ cache_paired st'.
Proof.
  intros Hnet. revert attempt last st.
  induction n as [|n IH]; intros attempt last st Hcache Hlast.
  - by intros [= <- <-].
  - rewrite retry_S.
    destruct (get_coordinates_total (PStr q) st) as (g1 & st1 & E). rewrite E.
    destruct (get_coordinates_paired _ _ _ _ Hnet Hcache E) as [Hg1 Hc1].
    destruct (negb (is_none g1.1.1) && negb (is_none g1.1.2)).
    + by intros [= <- <-].
    + apply IH; [|done]. intros a g'. cbn [cache]. apply Hc1.
Qed.

(** What a successful turn of the loop over rows went through. *)
Lemma process_row_inv code r st r' st' :
  process_row net render max_retries code r st = (Ok r', st') ->
  exists r2 ca q g st1 out,
    prepare render code r = Ok (r2, ca, q)
    /\ retry net max_retries q 1 (Z.to_nat max_retries) unresolved st = (Ok g, st1)
    /\ store_result r2 g = Ok r'
    /\ st' = mkState (cache st1) (sent st1) (printed st1 ++ out)
    /\ (is_none g.1.1 || is_none g.1.2 = true -> GeocodingFailed q ∈ out).
Proof.
  unfold process_row. unfold bind at 1. unfold lift at 1.
  destruct (prepare render code r) as [[[r2 ca] q]|] eqn:Hp; [|discriminate].
  cbn [fst snd]. unfold bind at 1.
  destruct (retry_total q 1 (Z.to_nat max_retries) unresolved st) as (g & st1 & Hr).
  rewrite Hr. unfold bind at 1.
  intros H. exists r2, ca, q, g, st1.
  destruct (is_none g.1.1 || is_none g.1.2) eqn:Hnone.
  - unfold print at 1 in H. unfold bind, lift in H. cbn [cache sent printed] in H.
    destruct (store_result r2 g) as [r4|] eqn:Hs; [|discriminate].
    destruct (cell r4 "PostalCode") as [shown|]; [|discriminate].
    unfold print, ret in H. cbn [cache sent printed] in H.
    injection H as <- <-.
    exists ([GeocodingFailed q] ++ [Geocoded ca g.1.1 g.1.2 shown]).
    repeat split; try done.
    + by rewrite app_assoc.
    + intros _. apply elem_of_app. left. by apply list_elem_of_singleton.
  - unfold ret at 1 in H. unfold bind, lift in H.
    destruct (store_result r2 g) as [r4|] eqn:Hs; [|discriminate].
    destruct (cell r4 "PostalCode") as [shown|]; [|discriminate].
    unfold print, ret in H. injection H as <- <-. eexists. by repeat split.
Qed.

(** A turn of the loop that got as far as storing a result. *)
Lemma process_row_ok code r st r2 ca q g st1 r' :
  prepare render code r = Ok (r2, ca, q) ->
  retry net max_retries q 1 (Z.to_nat max_retries) unresolved st = (Ok g, st1) ->
  store_result r2 g = Ok r' ->
  exists st', process_row net render max_retries code r st = (Ok r', st').
Proof.
  intros Hp Hr Hs. unfold process_row. unfold bind at 1. unfold lift at 1.
  rewrite Hp. cbn [fst snd]. unfold bind at 1. rewrite Hr. unfold bind at 1.
  assert (Hshown : exists shown, cell r' "PostalCode" = Ok shown).
  { unfold store_result in Hs.
    destruct (cell _ "PostalCode") as [old|] eqn:Hold; [|discriminate].
    simpl in Hs. injection Hs as <-. unfold cell in *.
    destruct (isna old && truthy g.2).
    - rewrite lookup_insert_eq. eauto.
    - rewrite Hold. eauto. }
  destruct Hshown as [shown Hshown].
  destruct (is_none g.1.1 || is_none g.1.2);
    [unfold print at 1 | unfold ret at 1];
    unfold bind, lift; rewrite Hs, Hshown; unfold print, ret; eauto.
Qed.

Lemma store_result_cells r g r' :
  store_result r g = Ok r' ->
  r' !! "Latitude" = Some g.1.1 /\ r' !! "Longitude" = Some g.1.2
  /\ (forall col, col <> "Latitude" -> col <> "Longitude" -> col <> "PostalCode" ->
        r' !! col = r !! col)
  /\ exists old,
       r !! "PostalCode" = Some old
       /\ r' !! "PostalCode" = Some (if isna old && truthy g.2 then g.2 else old).
Proof.
  unfold store_result, cell.
  rewrite lookup_insert_ne by done. rewrite lookup_insert_ne by done.
  destruct (r !! "PostalCode") as [old|] eqn:Hold; [|discriminate]. simpl.
  intros [= <-].
  destruct (isna old && truthy g.2) eqn:Hb; repeat split.
  - rewrite lookup_insert_ne by done. rewrite lookup_insert_ne by done.
    by rewrite lookup_insert_eq.
  - rewrite lookup_insert_ne by done. by rewrite lookup_insert_eq.
  - intros col H1 H2 H3. by rewrite !lookup_insert_ne.
  - exists old. split; [done|]. by rewrite Hb, lookup_insert_eq.
  - rewrite lookup_insert_ne by done. by rewrite lookup_insert_eq.
  - by rewrite lookup_insert_eq.
  - intros col H1 H2 H3. by rewrite !lookup_insert_ne.
  - exists old. split; [done|]. by rewrite Hb, !lookup_insert_ne.
Qed.

End Rows.

(** ** From the row that [iterrows] yields to the query *)

Section Prepare.

Variable render : pyval -> string.

Lemma append_comma_nonempty a b : a +:+ ", " +:+ b <> "".
Proof. by destruct a. Qed.

Lemma prepare_query code r r2 ca q :
  prepare render code r = Ok (r2, ca, q) -> q <> "".
Proof.
  unfold prepare. destruct (bc_handling _ _ _ _) as [[r2' ca']|]; [|discriminate].
  simpl. destruct (cell r "FullProvinceName"); [|discriminate]. simpl.
  intros [= _ _ <-]. apply append_comma_nonempty.
Qed.

(** The special handling writes the address and, when the row's postal code
    is falsy, the postal code; it writes nothing else. *)
Lemma bc_handling_cells code r ca r2 ca2 :
  bc_handling render code r ca = Ok (r2, ca2) ->
  (forall col, col <> "Address" -> col <> "PostalCode" -> r2 !! col = r !! col)
  /\ (truthy (row_get r "PostalCode" PNone) = true ->
      r2 !! "PostalCode" = r !! "PostalCode").
Proof.
  unfold bc_handling.
  destruct ((code =? "BC") && bool_decide (is_Some (r !! "FullAddress"))).
  - destruct (cell r "FullAddress") as [fa|]; [|discriminate]. simpl.
    destruct (cell r "City") as [city|]; [|discriminate]. simpl.
    destruct (clean_bc_address render fa city "British Columbia") as [[clean extracted]|];
      [|discriminate].
    intros [= <- _]. split.
    + intros col H1 H2.
      destruct (negb (truthy (row_get r "PostalCode" PNone)));
        by rewrite !lookup_insert_ne.
    + intros ->. simpl. by rewrite lookup_insert_ne.
  - by intros [= <- _].
Qed.

Lemma prepare_cells code r r2 ca q :
  prepare render code r = Ok (r2, ca, q) ->
  (forall col, col <> "Address" -> col <> "PostalCode" -> r2 !! col = r !! col)
  /\ (truthy (row_get r "PostalCode" PNone) = true ->
      r2 !! "PostalCode" = r !! "PostalCode").
Proof.
  unfold prepare.
  destruct (bc_handling _ _ _ _) as [[r2' ca']|] eqn:Hbc; [|discriminate].
  simpl. destruct (cell r "FullProvinceName"); [|discriminate]. simpl.
  intros [= <- _ _]. by eapply bc_handling_cells.
Qed.

End Prepare.

(** ** The loop over rows: the claims *)

Lemma iterrows_cons net render max_retries code r rest st :
  iterrows net render max_retries code (r :: rest) st =
    match process_row net render max_retries code r st with
    | (Ok r', st') =>
        let next := iterrows net render max_retries code rest st' in
        (match next.1 with Ok rest' => Ok (r' :: rest') | Raise e => Raise e end, next.2)
    | (Raise e, st') => (Raise e, st')
    end.
Proof.
  simpl iterrows. unfold bind at 1.
  destruct (process_row net render max_retries code r st) as [[r'|e] st']; [|done].
  unfold bind, ret.
  by destruct (iterrows net render max_retries code rest st') as [[rest'|e] st''].
Qed.

Lemma select_target_lookup (r : row) col :
  col ∈ target_cols -> select_target r !! col = r !! col.
Proof.
  intros Hcol. unfold select_target. destruct (r !! col) as [v|] eqn:E.
  - by apply map_lookup_filter_Some.
  - apply map_lookup_filter_None. by left.
Qed.

Section Attempts.

Variable net : list request -> request -> reply.
Variable render : pyval -> string.
Variable max_retries : Z.

Lemma is_none_true v : is_none v = true <-> v = PNone.
Proof. destruct v; simpl; split; congruence. Qed.

Lemma attempt_failed_test g :
  attempt_failed g <-> negb (is_none g.1.1) && negb (is_none g.1.2) = false.
Proof.
  unfold attempt_failed. rewrite <- !is_none_true.
  destruct (is_none g.1.1), (is_none g.1.2); simpl; intuition congruence.
Qed.

(** A failed result in the cache: every attempt reads it, no request is
    sent. *)
Lemma retry_cached_failure q attempt n last st g0 :
  q <> "" -> cache st !! q = Some g0 -> attempt_failed g0 ->
  exists out,
    retry net max_retries q attempt n last st =
      (Ok (match n with O => last | S _ => g0 end),
       mkState (cache st) (sent st) (printed st ++ out))
    /\ forall k, k < n -> RetryFailed (attempt + k) max_retries q ∈ out.
Proof.
  intros Hq Hc Hg0. revert attempt last st Hc.
  induction n as [|n IH]; intros attempt last st Hc.
  - exists []. split; [|intros k Hk; lia]. simpl. by rewrite app_nil_r, state_eta.
  - rewrite retry_S, (get_coordinates_hit net q g0 st Hq Hc).
    apply attempt_failed_test in Hg0 as Htest. rewrite Htest.
    destruct (IH (S attempt) g0
                (mkState (cache st) (sent st)
                   (printed st ++ [RetryFailed attempt max_retries q])) Hc)
      as (out & -> & Hout).
    exists ([RetryFailed attempt max_retries q] ++ out). cbn [cache sent printed].
    split.
    + f_equal; [by destruct n | by rewrite app_assoc].
    + intros [|k] Hk.
      * rewrite Nat.add_0_r. apply elem_of_app. left. by apply list_elem_of_singleton.
      * apply elem_of_app. right. replace (attempt + S k) with (S attempt + k) by lia.
        apply Hout. lia.
Qed.

(** The loop of attempts that ends without a [break]: every attempt was
    announced as failed; either no lookup resolved, and the loop sent a
    request at each attempt and holds the unresolved result, or the loop
    holds a result that the cache has for the query. *)
Lemma retry_failing q attempt n last st g st1 :
  q <> "" ->
  retry net max_retries q attempt n last st = (Ok g, st1) ->
  attempt_failed g ->
  exists requests out,
    requests <= n
    /\ sent st1 = sent st ++ replicate requests (Forward q)
    /\ printed st1 = printed st ++ out
    /\ (forall k, k < n -> RetryFailed (attempt + k) max_retries q ∈ out)
    /\ ((g = match n with O => last | S _ => unresolved end
         /\ cache st1 = cache st /\ requests = n)
        \/ (cache st1 !! q = Some g
            /\ (cache st1 = cache st \/ cache st1 = <[q := g]> (cache st)))).
Proof.
  intros Hq. revert attempt last st.
  induction n as [|n IH]; intros attempt last st H Hg.
  - simpl in H. injection H as <- <-. exists 0, [].
    split; [lia|]. split; [by rewrite app_nil_r|]. split; [by rewrite app_nil_r|].
    split; [intros k Hk; lia|]. by left.
  - rewrite retry_S in H.
    destruct (get_coordinates_cases net q st Hq)
      as [(g1 & Hc & E) | [(g1 & Hc & Hr & E) | (out1 & Hc & Hr & E)]];
      rewrite E in H; clear E.
    + destruct (negb (is_none g1.1.1) && negb (is_none g1.1.2)) eqn:Htest.
      { injection H as <- <-. apply attempt_failed_test in Hg. congruence. }
      assert (Hg1 : attempt_failed g1) by (by apply attempt_failed_test).
      destruct (retry_cached_failure q (S attempt) n g1
                  (mkState (cache st) (sent st)
                     (printed st ++ [RetryFailed attempt max_retries q])) g1 Hq Hc Hg1)
        as (out & E & Hout).
      rewrite E in H. injection H as <- <-. cbn [cache sent printed].
      exists 0, ([RetryFailed attempt max_retries q] ++ out).
      split; [lia|]. split; [by rewrite app_nil_r|]. split; [by rewrite app_assoc|].
      split.
      * intros [|k] Hk.
        -- rewrite Nat.add_0_r. apply elem_of_app. left.
           by apply list_elem_of_singleton.
        -- apply elem_of_app. right.
           replace (attempt + S k) with (S attempt + k) by lia. apply Hout. lia.
      * right. split; [by destruct n | by left].
    + destruct (negb (is_none g1.1.1) && negb (is_none g1.1.2)) eqn:Htest.
      { injection H as <- <-. apply attempt_failed_test in Hg. congruence. }
      assert (Hg1 : attempt_failed g1) by (by apply attempt_failed_test).
      cbn [cache sent printed] in H.
      destruct (retry_cached_failure q (S attempt) n g1
                  (mkState (<[q := g1]> (cache st)) (sent st ++ [Forward q])
                     (printed st ++ [RetryFailed attempt max_retries q])) g1 Hq)
        as (out & E & Hout); [by cbn [cache]; rewrite lookup_insert_eq | done |].
      rewrite E in H. injection H as <- <-. cbn [cache sent printed].
      exists 1, ([RetryFailed attempt max_retries q] ++ out).
      split; [lia|]. split; [done|]. split; [by rewrite app_assoc|].
      split.
      * intros [|k] Hk.
        -- rewrite Nat.add_0_r. apply elem_of_app. left.
           by apply list_elem_of_singleton.
        -- apply elem_of_app. right.
           replace (attempt + S k) with (S attempt + k) by lia. apply Hout. lia.
      * right. assert (g1 = match n with O => g1 | S _ => g1 end) as <- by (by destruct n).
        split; [by rewrite lookup_insert_eq | by right].
    + cbn [unresolved fst snd is_none negb andb cache sent printed] in H.
      destruct (IH _ _ _ H Hg) as (m & out & Hm & Hsent & Hprinted & Hout & Hend).
      cbn [cache sent printed] in Hsent, Hprinted, Hend.
      exists (S m), (out1 ++ [RetryFailed attempt max_retries q] ++ out).
      split; [lia|]. split; [by rewrite Hsent, <- app_assoc|].
      split; [by rewrite Hprinted, <- !app_assoc|]. split.
      * intros [|k] Hk.
        -- rewrite Nat.add_0_r. apply elem_of_app. right. apply elem_of_app. left.
           by apply list_elem_of_singleton.
        -- apply elem_of_app. right. apply elem_of_app. right.
           replace (attempt + S k) with (S attempt + k) by lia. apply Hout. lia.
      * destruct Hend as [(-> & Hcache & ->) | Hend]; [left | by right].
        split; [by destruct n | done].
Qed.

Lemma iterrows_app code before after st :
  iterrows net render max_retries code (before ++ after) st =
    match iterrows net render max_retries code before st with
    | (Ok before', st1) =>
        let next := iterrows net render max_retries code after st1 in
        (match next.1 with
         | Ok after' => Ok (before' ++ after')
         | Raise e => Raise e
         end, next.2)
    | (Raise e, st1) => (Raise e, st1)
    end.
Proof.
  revert st. induction before as [|r before IH]; intros st.
  - simpl app. simpl iterrows at 2. unfold ret. cbn zeta.
    by destruct (iterrows net render max_retries code after st) as [[after'|e] st1].
  - simpl app. rewrite !iterrows_cons.
    destruct (process_row net render max_retries code r st) as [[r'|e] st1]; [|done].
    cbn zeta. rewrite IH.
    destruct (iterrows net render max_retries code before st1) as [[before'|e] st2];
      [|done].
    cbn zeta. cbn [fst snd].
    by destruct (iterrows net render max_retries code after st2) as [[after'|e] st3].
Qed.

(** A row that the loop body returns keeps its place in the frame, and the
    loop goes on with the rows after it. *)
Lemma iterrows_goes_on code before r after st0 before' st r' st' :
  iterrows net render max_retries code before st0 = (Ok before', st) ->
  process_row net render max_retries code r st = (Ok r', st') ->
  iterrows net render max_retries code (before ++ r :: after) st0 =
    (let next := iterrows net render max_retries code after st' in
     (match next.1 with
      | Ok after' => Ok (before' ++ r' :: after')
      | Raise e => Raise e
      end, next.2)).
Proof.
  intros Hbefore Hrow. rewrite iterrows_app, Hbefore. cbn zeta.
  rewrite iterrows_cons, Hrow. cbn zeta.
  by destruct (iterrows net render max_retries code after st') as [[after'|e] st2].
Qed.

End Attempts.

(** C4, as the code has it.  A record that reached its geocoding attempts
    (it has a query [q]).  When the attempts all fail by the test of the
    loop (it ends without a [break], holding a result [g] with [None] as
    latitude or as longitude): the record is returned, with the latitude and
    the longitude of [g], also after the selection of the output columns;
    [g] is the unresolved result or a result that the cache holds for the
    query; at most [max_retries] requests were sent; every attempt and the
    failure were printed.  When the lookups themselves all fail: exactly
    [max_retries] requests are sent, none if that number is not positive,
    nothing is cached, and latitude and longitude are [None].  And a record
    that is returned keeps its place in the frame, the loop over rows
    going on with the rows after it. *)
Theorem failed_record_is_kept net render max_retries code r st r2 ca q :
  prepare render code r = Ok (r2, ca, q) ->
  is_Some (r2 !! "PostalCode") ->
  (forall g st1,
      retry net max_retries q 1 (Z.to_nat max_retries) unresolved st = (Ok g, st1) ->
      attempt_failed g ->
      exists r' st' requests out,
        process_row net render max_retries code r st = (Ok r', st')
        /\ r' !! "Latitude" = Some g.1.1 /\ r' !! "Longitude" = Some g.1.2
        /\ select_target r' !! "Latitude" = Some g.1.1
        /\ select_target r' !! "Longitude" = Some g.1.2
        /\ (g = unresolved \/ cache st' !! q = Some g)
        /\ sent st' = sent st ++ replicate requests (Forward q)
        /\ requests <= Z.to_nat max_retries
        /\ printed st' = printed st ++ out
        /\ (forall k, k < Z.to_nat max_retries -> RetryFailed (S k) max_retries q ∈ out)
        /\ GeocodingFailed q ∈ out)
  /\ (cache st !! q = None ->
      (forall k, k < Z.to_nat max_retries ->
         lookup_fails (net (sent st ++ replicate k (Forward q)) (Forward q))) ->
      exists r' st',
        process_row net render max_retries code r st = (Ok r', st')
        /\ r' !! "Latitude" = Some PNone /\ r' !! "Longitude" = Some PNone
        /\ select_target r' !! "Latitude" = Some PNone
        /\ select_target r' !! "Longitude" = Some PNone
        /\ sent st' = sent st ++ replicate (Z.to_nat max_retries) (Forward q)
        /\ cache st' = cache st
        /\ GeocodingFailed q ∈ printed st')
  /\ (forall r' st' before after st0 before',
        process_row net render max_retries code r st = (Ok r', st') ->
        iterrows net render max_retries code before st0 = (Ok before', st) ->
        iterrows net render max_retries code (before ++ r :: after) st0 =
          (let next := iterrows net render max_retries code after st' in
           (match next.1 with
            | Ok after' => Ok (before' ++ r' :: after')
            | Raise e => Raise e
            end, next.2))).
Proof.
  intros Hp [old Hold].
  pose proof (prepare_query render _ _ _ _ _ Hp) as Hq.
  assert (Hstore : forall g, exists r', store_result r2 g = Ok r').
  { intros g. unfold store_result, cell. rewrite !lookup_insert_ne by done.
    rewrite Hold. simpl. eauto. }
  assert (Hrun : forall g st1,
            retry net max_retries q 1 (Z.to_nat max_retries) unresolved st = (Ok g, st1) ->
            attempt_failed g ->
            exists r' st' out,
              process_row net render max_retries code r st = (Ok r', st')
              /\ r' !! "Latitude" = Some g.1.1 /\ r' !! "Longitude" = Some g.1.2
              /\ st' = mkState (cache st1) (sent st1) (printed st1 ++ out)
              /\ GeocodingFailed q ∈ out).
  { intros g st1 Hr Hg. destruct (Hstore g) as [r' Hs].
    destruct (process_row_ok net render max_retries code r st _ _ _ _ _ _ Hp Hr Hs)
      as [st' Hrow].
    destruct (process_row_inv net render max_retries _ _ _ _ _ Hrow)
      as (r2' & ca' & q' & g' & st1' & out' & Hp' & Hr' & Hs' & -> & Hprinted).
    rewrite Hp in Hp'. injection Hp' as <- <- <-.
    rewrite Hr in Hr'. injection Hr' as <- <-.
    destruct (store_result_cells _ _ _ Hs) as (Hlat & Hlng & _).
    exists r', (mkState (cache st1) (sent st1) (printed st1 ++ out')), out'.
    repeat split; try done. apply Hprinted.
    destruct Hg as [Hg | Hg]; rewrite Hg; simpl; [done | by rewrite orb_true_r]. }
  split; [|split].
  - intros g st1 Hr Hg.
    destruct (Hrun g st1 Hr Hg) as (r' & st' & out' & Hrow & Hlat & Hlng & -> & Hfailed).
    destruct (retry_failing net max_retries q 1 _ _ _ _ _ Hq Hr Hg)
      as (m & out & Hm & Hsent & Hprinted & Hout & Hend).
    exists r', (mkState (cache st1) (sent st1) (printed st1 ++ out')), m, (out ++ out').
    split; [exact Hrow|]. split; [exact Hlat|]. split; [exact Hlng|].
    split; [by rewrite select_target_lookup by set_solver|].
    split; [by rewrite select_target_lookup by set_solver|].
    cbn [cache sent printed]. split.
    { destruct Hend as [(-> & _ & _) | [Hc _]]; [left | by right].
      by destruct (Z.to_nat max_retries). }
    split; [done|]. split; [done|]. split; [by rewrite Hprinted, app_assoc|].
    split.
    + intros k Hk. apply elem_of_app. left. by apply (Hout k).
    + apply elem_of_app. by right.
  - intros Hc Hf.
    destruct (retry_all_fail net max_retries q 1 (Z.to_nat max_retries) unresolved st Hq Hc)
      as [out Hr].
    { intros k Hk. apply resolution_fails. by apply Hf. }
    assert (Hg : match Z.to_nat max_retries with O => unresolved | S _ => unresolved end
                 = unresolved) by (by destruct (Z.to_nat max_retries)).
    rewrite Hg in Hr. clear Hg.
    destruct (Hrun unresolved _ Hr) as (r' & st' & out' & Hrow & Hlat & Hlng & -> & Hfailed);
      [by left|].
    exists r', (mkState (cache st) (sent st ++ replicate (Z.to_nat max_retries) (Forward q))
                 ((printed st ++ out) ++ out')).
    split; [exact Hrow|]. split; [exact Hlat|]. split; [exact Hlng|].
    split; [by rewrite select_target_lookup by set_solver|].
    split; [by rewrite select_target_lookup by set_solver|].
    split; [done|]. split; [done|].
    cbn [printed]. apply elem_of_app. by right.
  - intros r' st' before after st0 before' Hrow Hbefore.
    by apply (iterrows_goes_on net render max_retries code before r after st0 before' st).
Qed.

(** A store of Manitoba with the default of three attempts: a service whose
    success carries no latitude, and a service that reports no match. *)
Lemma failed_record_witness :
  (exists r' st' requests out,
      process_row half_net sample_render default_max_retries "MB" oak_street initial
      = (Ok r', st')
      /\ r' !! "Latitude" = Some PNone
      /\ r' !! "Longitude" = Some (PFloat (-123 # 1))
      /\ select_target r' !! "Latitude" = Some PNone
      /\ select_target r' !! "Longitude" = Some (PFloat (-123 # 1))
      /\ ((PNone, PFloat (-123 # 1), PNone) = unresolved
          \/ cache st' !! "5 Oak St, Brandon, Manitoba, Canada"
             = Some (PNone, PFloat (-123 # 1), PNone))
      /\ sent st' = sent initial
                    ++ replicate requests (Forward "5 Oak St, Brandon, Manitoba, Canada")
      /\ requests <= 3
      /\ printed st' = printed initial ++ out
      /\ (forall k, k < 3 ->
            RetryFailed (S k) default_max_retries "5 Oak St, Brandon, Manitoba, Canada"
            ∈ out)
      /\ GeocodingFailed "5 Oak St, Brandon, Manitoba, Canada" ∈ out)
  /\ (exists r' st',
        process_row no_match_net sample_render default_max_retries "MB" oak_street initial
        = (Ok r', st')
        /\ r' !! "Latitude" = Some PNone /\ r' !! "Longitude" = Some PNone
        /\ select_target r' !! "Latitude" = Some PNone
        /\ select_target r' !! "Longitude" = Some PNone
        /\ sent st' = sent initial
                      ++ replicate 3 (Forward "5 Oak St, Brandon, Manitoba, Canada")
        /\ cache st' = cache initial
        /\ GeocodingFailed "5 Oak St, Brandon, Manitoba, Canada" ∈ printed st').
Proof.
  assert (Hp : prepare sample_render "MB" oak_street
               = Ok (oak_street, PStr "5 Oak St", "5 Oak St, Brandon, Manitoba, Canada"))
    by (vm_compute; reflexivity).
  assert (Hold : is_Some (oak_street !! "PostalCode"))
    by (exists PNone; vm_compute; reflexivity).
  split.
  - apply (proj1 (failed_record_is_kept half_net sample_render default_max_retries "MB"
                    oak_street initial oak_street (PStr "5 Oak St")
                    "5 Oak St, Brandon, Manitoba, Canada" Hp Hold)
             (PNone, PFloat (-123 # 1), PNone)
             (mkState
                (<["5 Oak St, Brandon, Manitoba, Canada"
                   := (PNone, PFloat (-123 # 1), PNone)]> ∅)
                [Forward "5 Oak St, Brandon, Manitoba, Canada"]
                [RetryFailed 1 3 "5 Oak St, Brandon, Manitoba, Canada";
                 RetryFailed 2 3 "5 Oak St, Brandon, Manitoba, Canada";
                 RetryFailed 3 3 "5 Oak St, Brandon, Manitoba, Canada"])).
    + vm_compute. reflexivity.
    + by left.
  - apply (proj1 (proj2 (failed_record_is_kept no_match_net sample_render
                           default_max_retries "MB" oak_street initial oak_street
                           (PStr "5 Oak St") "5 Oak St, Brandon, Manitoba, Canada"
                           Hp Hold))).
    + reflexivity.
    + intros k _. apply resolution_fails. reflexivity.
Defined.

(** C4, as the specification states it, fails: a success that carries a
    longitude and no latitude is a failed attempt for the loop, all three
    attempts and the failure are printed, and the record is kept with that
    longitude; one request was sent and its result is in the cache. *)
Lemma failed_record_with_a_longitude :
  exists r' st',
    process_row half_net sample_render default_max_retries "MB" oak_street initial
    = (Ok r', st')
    /\ printed st'
       = [RetryFailed 1 3 "5 Oak St, Brandon, Manitoba, Canada";
          RetryFailed 2 3 "5 Oak St, Brandon, Manitoba, Canada";
          RetryFailed 3 3 "5 Oak St, Brandon, Manitoba, Canada";
          GeocodingFailed "5 Oak St, Brandon, Manitoba, Canada";
          Geocoded (PStr "5 Oak St") PNone (PFloat (-123 # 1)) PNone]
    /\ r' !! "Latitude" = Some PNone
    /\ r' !! "Longitude" = Some (PFloat (-123 # 1))
    /\ sent st' = [Forward "5 Oak St, Brandon, Manitoba, Canada"]
    /\ cache st' !! "5 Oak St, Brandon, Manitoba, Canada"
       = Some (PNone, PFloat (-123 # 1), PNone).
Proof.
  exists (<["Longitude" := PFloat (-123 # 1)]> (<["Latitude" := PNone]> oak_street)),
    (mkState
       (<["5 Oak St, Brandon, Manitoba, Canada" := (PNone, PFloat (-123 # 1), PNone)]> ∅)
       [Forward "5 Oak St, Brandon, Manitoba, Canada"]
       [RetryFailed 1 3 "5 Oak St, Brandon, Manitoba, Canada";
        RetryFailed 2 3 "5 Oak St, Brandon, Manitoba, Canada";
        RetryFailed 3 3 "5 Oak St, Brandon, Manitoba, Canada";
        GeocodingFailed "5 Oak St, Brandon, Manitoba, Canada";
        Geocoded (PStr "5 Oak St") PNone (PFloat (-123 # 1)) PNone]).
  split; [vm_compute; reflexivity|]. split; [reflexivity|].
  split; [vm_compute; reflexivity|]. split; [vm_compute; reflexivity|].
  split; [reflexivity|]. vm_compute. reflexivity.
Qed.

(** ** Invariants of the loop over rows *)

Section Frames.

Variable net : list request -> request -> reply.
Variable render : pyval -> string.
Variable read_table : string -> string -> read_result.
Variable max_retries : Z.

(** A property of the state that every row keeps, and a relation between a
    row and what the loop makes of it, hold along the whole frame. *)
Lemma iterrows_invariant (P : state -> Prop) (Q : row -> row -> Prop) code :
  (forall r st r' st',
      P st -> process_row net render max_retries code r st = (Ok r', st') ->
      Q r r' /\ P st') ->
  forall df st out st',
    P st -> iterrows net render max_retries code df st = (Ok out, st') ->
    Forall2 Q df out /\ P st'.
Proof.
  intros Hrow. induction df as [|r rest IH]; intros st out st' HP.
  - simpl. unfold ret. intros [= <- <-]. by split.
  - rewrite iterrows_cons.
    destruct (process_row net render max_retries code r st) as [[r'|e] st1] eqn:Er;
      [|discriminate].
    destruct (Hrow _ _ _ _ HP Er) as [HQ HP1].
    cbn zeta.
    destruct (iterrows net render max_retries code rest st1) as [[rest'|e] st2] eqn:Ei;
      [|discriminate].
    cbn [fst snd]. intros [= <- <-].
    destruct (IH _ _ _ HP1 Ei) as [HQs HP2]. split; [by constructor | done].
Qed.

(** What a call of [process_province] that returned a frame went through. *)
Lemma process_province_inv file code type mapping st out st' :
  process_province net render read_table max_retries file code type mapping st
  = (Ok (Some out), st') ->
  exists df df1 rows,
    read_table file type = Table df
    /\ reconcile code mapping df = Ok df1
    /\ iterrows net render max_retries code df1
         (mkState (cache st) (sent st) (printed st ++ [Processing code file]))
       = (Ok rows, st')
    /\ out = map select_target rows.
Proof.
  unfold process_province. unfold bind at 1. unfold print at 1.
  destruct (negb _).
  { unfold bind, print, ret. discriminate. }
  destruct (read_table file type) as [df| |];
    try (unfold bind, print, ret; discriminate).
  unfold bind at 1. unfold lift at 1.
  destruct (reconcile code mapping df) as [df1|] eqn:Hrec; [|discriminate].
  unfold bind at 1.
  destruct (iterrows net render max_retries code df1 _) as [[rows|e] st1] eqn:Hit;
    [|discriminate].
  unfold ret. intros [= <- <-]. by exists df, df1, rows.
Qed.

Lemma process_row_paired code r st r' st' :
  service_paired net -> cache_paired st ->
  process_row net render max_retries code r st = (Ok r', st') ->
  coordinates_paired r' /\ cache_paired st'.
Proof.
  intros Hnet Hcache H.
  destruct (process_row_inv _ _ _ _ _ _ _ _ H)
    as (r2 & ca & q & g & st1 & out & Hp & Hr & Hs & -> & _).
  destruct (retry_paired net max_retries q 1 (Z.to_nat max_retries) unresolved
              st g st1 Hnet Hcache eq_refl Hr) as [Hg Hc1].
  destruct (store_result_cells _ _ _ Hs) as (Hlat & Hlng & _).
  split; [by exists g.1.1, g.1.2 | done].
Qed.

End Frames.

Lemma Forall2_right {A B} (Q : B -> Prop) (l : list A) (k : list B) :
  Forall2 (fun _ y => Q y) l k -> Forall Q k.
Proof. induction 1; by constructor. Qed.

Lemma coordinates_paired_select r :
  coordinates_paired r -> coordinates_paired (select_target r).
Proof.
  intros (lat & lng & Hlat & Hlng & H). exists lat, lng.
  rewrite !select_target_lookup by set_solver. done.
Qed.

(** C5, as the code has it.  [get_coordinates] returns the unresolved
    result or the result of one successful response, read now or cached
    before; a turn of the loop over rows writes [Latitude] and [Longitude]
    from the one result its retry loop ended with; and when every result a
    success of the service carries has latitude and longitude both missing
    or both there, so has every record that [process_province] returns. *)
Theorem coordinates_are_written_together net render read_table max_retries :
  (forall address st,
      exists g,
        (get_coordinates net address st).1 = Ok g
        /\ (g = unresolved
            \/ exists a, address = PStr a
                 /\ (cache st !! a = Some g
                     \/ lookup_resolves (net (sent st) (Forward a)) g)))
  /\ (forall code r st r' st',
        process_row net render max_retries code r st = (Ok r', st') ->
        exists q g st1,
          retry net max_retries q 1 (Z.to_nat max_retries) unresolved st = (Ok g, st1)
          /\ r' !! "Latitude" = Some g.1.1 /\ r' !! "Longitude" = Some g.1.2)
  /\ (service_paired net ->
      forall file code type mapping st out st',
        cache_paired st ->
        process_province net render read_table max_retries file code type mapping st
        = (Ok (Some out), st') ->
        Forall coordinates_paired out /\ cache_paired st').
Proof.
  split; [|split].
  - intros address st.
    assert (Hrej : address = PStr "" \/ isinstance_str address = false ->
                   get_coordinates net address st = (Ok unresolved, st))
      by apply get_coordinates_rejected.
    destruct address; try (exists unresolved; rewrite Hrej by (by right); by split; [|left]).
    destruct (decide (s = "")) as [->|Hs];
      [exists unresolved; rewrite Hrej by (by left); by split; [|left]|].
    destruct (get_coordinates_cases net s st Hs)
      as [(g & Hc & ->) | [(g & _ & Hr & ->) | (out & _ & _ & ->)]].
    + exists g. split; [done|]. right. exists s. split; [done | by left].
    + exists g. split; [done|]. right. exists s. split; [done|]. right.
      by apply resolution_resolves.
    + exists unresolved. split; [done | by left].
  - intros code r st r' st' H.
    destruct (process_row_inv _ _ _ _ _ _ _ _ H)
      as (r2 & ca & q & g & st1 & out & Hp & Hr & Hs & _ & _).
    destruct (store_result_cells _ _ _ Hs) as (Hlat & Hlng & _).
    by exists q, g, st1.
  - intros Hnet file code type mapping st out st' Hcache H.
    destruct (process_province_inv _ _ _ _ _ _ _ _ _ _ _ H)
      as (df & df1 & rows & _ & _ & Hit & ->).
    destruct (iterrows_invariant net render max_retries cache_paired
                (fun _ r' => coordinates_paired r') code) with (1 := fun r st r' st' =>
                process_row_paired net render max_retries code r st r' st' Hnet)
                (3 := Hit) as [Hrows Hc]; [done|].
    split; [|done]. apply Forall_fmap. apply Forall2_right in Hrows.
    eapply Forall_impl; [exact Hrows|]. intros r. apply coordinates_paired_select.
Qed.

Lemma good_net_paired : service_paired good_net.
Proof.
  intros before a g Hg. apply resolution_resolves in Hg.
  vm_compute in Hg. injection Hg as <-. reflexivity.
Qed.

(** A service whose only success carries both coordinates. *)
Lemma coordinates_are_written_together_witness :
  service_paired good_net
  /\ cache_paired initial
  /\ exists out st',
       process_province good_net sample_render one_store default_max_retries
         "Manitoba.csv" "MB" "csv" address_mapping initial = (Ok (Some out), st')
       /\ Forall coordinates_paired out /\ cache_paired st'.
Proof.
  assert (Hcache : cache_paired initial) by (intros a g H; discriminate H).
  split; [exact good_net_paired|]. split; [exact Hcache|].
  eexists _, _. split; [vm_compute; reflexivity|].
  apply (proj2 (proj2 (coordinates_are_written_together good_net sample_render
                         one_store default_max_retries))
           good_net_paired "Manitoba.csv" "MB" "csv" address_mapping initial _ _ Hcache).
  vm_compute. reflexivity.
Defined.

(** C5, as the specification states it, fails: a success whose location
    carries a longitude and a null latitude is cached and returned as it
    is, no attempt of the retry loop gets more, and the record ends with a
    longitude and no latitude. *)
Lemma longitude_without_latitude :
  (get_coordinates half_net (PStr "5 Oak St") initial).1
  = Ok (PNone, PFloat (-123 # 1), PNone)
  /\ exists r st',
       process_province half_net sample_render one_store default_max_retries
         "Manitoba.csv" "MB" "csv" address_mapping initial = (Ok (Some [r]), st')
       /\ r !! "Latitude" = Some PNone
       /\ r !! "Longitude" = Some (PFloat (-123 # 1))
       /\ sent st' = [Forward "5 Oak St, Brandon, Manitoba, Canada"].
Proof.
  split; [vm_compute; reflexivity|].
  eexists _, _. split; [vm_compute; reflexivity|]. repeat split.
Qed.

(** ** The postal code of a record *)

Section Postal.

Variable net : list request -> request -> reply.
Variable render : pyval -> string.
Variable max_retries : Z.
Variable empty_array_raises : bool.

(** The write of lines 224-225 happens only over a missing postal code and
    only with a truthy one. *)
Lemma store_result_postal r2 g r' :
  store_result r2 g = Ok r' ->
  exists old,
    r2 !! "PostalCode" = Some old
    /\ (r' !! "PostalCode" = Some old
        \/ (isna old = true /\ truthy g.2 = true /\ r' !! "PostalCode" = Some g.2)).
Proof.
  intros H. destruct (store_result_cells _ _ _ H) as (_ & _ & _ & old & Hold & Hnew).
  exists old. split; [done|].
  destruct (isna old && truthy g.2) eqn:Hb; [|by left].
  right. by apply andb_true_iff in Hb as [? ?].
Qed.

Lemma store_result_keeps r2 g r' v :
  store_result r2 g = Ok r' ->
  r2 !! "PostalCode" = Some v -> notna v = true -> r' !! "PostalCode" = Some v.
Proof.
  intros H Hv Hnotna.
  destruct (store_result_postal _ _ _ H) as (old & Hold & [Hkept | (Hna & _)]).
  - congruence.
  - assert (old = v) as -> by congruence.
    unfold notna in Hnotna. rewrite Hna in Hnotna. discriminate.
Qed.

(** The loop of the reverse pass leaves every row of which the postal code
    is not missing as it is. *)
Lemma reverse_pass_untouched master mask st out st' :
  postal_isna master = Ok mask ->
  reverse_pass net empty_array_raises master mask st = (Ok out, st') ->
  length out = length master
  /\ forall i r v,
       master !! i = Some r -> r !! "PostalCode" = Some v -> notna v = true ->
       out !! i = Some r.
Proof.
  revert mask st out st'. induction master as [|r rest IH]; intros mask st out st'.
  - simpl. intros [= <-]. simpl. unfold ret. intros [= <- <-]. split; [done|].
    intros i r v H. by rewrite lookup_nil in H.
  - simpl postal_isna. unfold cell.
    destruct (r !! "PostalCode") as [v0|] eqn:Hv0; [|discriminate]. simpl.
    destruct (postal_isna rest) as [mask'|] eqn:Hmask; [|discriminate]. simpl.
    intros [= <-]. simpl reverse_pass. unfold bind at 1.
    destruct ((if isna v0 then fill_postal net empty_array_raises r else ret r) st) as [[r'|e] st1] eqn:Hfirst;
      [|discriminate].
    unfold bind at 1.
    destruct (reverse_pass net empty_array_raises rest mask' st1) as [[rest'|e] st2] eqn:Hrest;
      [|discriminate].
    unfold ret. intros [= <- <-].
    destruct (IH _ _ _ _ eq_refl Hrest) as [Hlen Hkeep].
    split; [simpl; by rewrite Hlen|].
    intros [|i] r0 v; simpl.
    + intros [= <-] Hv Hnotna. assert (v0 = v) as -> by congruence.
      unfold notna in Hnotna. apply negb_true_iff in Hnotna. rewrite Hnotna in Hfirst.
      unfold ret in Hfirst. by injection Hfirst as <- _.
    + apply Hkeep.
Qed.

Lemma pd_concat_lookup dfs i r v :
  concat dfs !! i = Some r -> r !! "PostalCode" = Some v ->
  exists r', pd_concat dfs !! i = Some r' /\ r' !! "PostalCode" = Some v.
Proof.
  intros Hi Hv. unfold pd_concat. rewrite list_lookup_fmap, Hi. simpl.
  eexists. split; [reflexivity|]. by apply lookup_union_Some_l.
Qed.

Lemma combine_inv dfs st out st' :
  combine net empty_array_raises dfs st = (Ok out, st') ->
  exists mask,
    postal_isna (pd_concat dfs) = Ok mask
    /\ reverse_pass net empty_array_raises (pd_concat dfs) mask st = (Ok out, st').
Proof.
  unfold combine. destruct dfs as [|df dfs]; [discriminate|].
  unfold bind, lift.
  destruct (postal_isna (pd_concat (df :: dfs))) as [mask|]; [|discriminate].
  intros H. by exists mask.
Qed.

End Postal.

(** What the special handling of British Columbia writes as postal code:
    the code extracted from the address when the row's own is falsy, the
    row's own otherwise. *)
Lemma bc_handling_postal render (r : row) ca fa city :
  r !! "FullAddress" = Some fa -> r !! "City" = Some city ->
  exists clean extracted r2,
    clean_bc_address render fa city "British Columbia" = Some (clean, extracted)
    /\ bc_handling render "BC" r ca = Ok (r2, clean)
    /\ r2 !! "PostalCode"
       = (if truthy (row_get r "PostalCode" PNone)
          then r !! "PostalCode" else Some extracted).
Proof.
  intros Hfa Hcity.
  assert (Hclean : exists clean extracted,
            clean_bc_address render fa city "British Columbia" = Some (clean, extracted)).
  { destruct fa; by eexists _, _. }
  destruct Hclean as (clean & extracted & Hclean).
  unfold bc_handling, cell. rewrite Hfa, Hcity. cbn [rbind].
  rewrite bool_decide_eq_true_2 by done. simpl andb. cbv iota. rewrite Hclean.
  eexists clean, extracted, _. split; [done|]. split; [reflexivity|].
  unfold row_get.
  destruct (truthy (default PNone (r !! "PostalCode"))); simpl.
  - by rewrite lookup_insert_ne.
  - by rewrite lookup_insert_eq.
Qed.

(** C3, as the code has it.  A postal code that is not missing and is
    truthy (not empty, not zero) goes through a turn of the loop over rows
    unchanged; the special handling of British Columbia writes the code
    extracted from the address, [None] when there is none, over a postal
    code that is falsy, and leaves a truthy one; a postal code that is not
    missing once that handling is done goes through the rest of the turn
    unchanged, truthy or not; the write of lines 224-225 happens only over a
    missing postal code and only with a truthy one; and in the concatenated
    frame the reverse pass returns every row of which the postal code is
    not missing as it was, so with that postal code. *)
Theorem postal_code_is_kept net render max_retries empty_array_raises :
  (forall code r st r' st' v,
      process_row net render max_retries code r st = (Ok r', st') ->
      r !! "PostalCode" = Some v -> notna v = true -> truthy v = true ->
      r' !! "PostalCode" = Some v)
  /\ (forall (r : row) ca fa city,
        r !! "FullAddress" = Some fa -> r !! "City" = Some city ->
        exists clean extracted r2,
          clean_bc_address render fa city "British Columbia" = Some (clean, extracted)
          /\ bc_handling render "BC" r ca = Ok (r2, clean)
          /\ r2 !! "PostalCode"
             = (if truthy (row_get r "PostalCode" PNone)
                then r !! "PostalCode" else Some extracted))
  /\ (forall code r st r' st' r2 ca q v,
        prepare render code r = Ok (r2, ca, q) ->
        process_row net render max_retries code r st = (Ok r', st') ->
        r2 !! "PostalCode" = Some v -> notna v = true ->
        r' !! "PostalCode" = Some v)
  /\ (forall r2 g r',
        store_result r2 g = Ok r' ->
        exists old,
          r2 !! "PostalCode" = Some old
          /\ (r' !! "PostalCode" = Some old
              \/ (isna old = true /\ truthy g.2 = true
                  /\ r' !! "PostalCode" = Some g.2)))
  /\ (forall dfs st out st',
        combine net empty_array_raises dfs st = (Ok out, st') ->
        length out = length (concat dfs)
        /\ forall i r v,
             concat dfs !! i = Some r -> r !! "PostalCode" = Some v ->
             notna v = true ->
             out !! i = pd_concat dfs !! i
             /\ exists r', out !! i = Some r' /\ r' !! "PostalCode" = Some v).
Proof.
  assert (Hafter : forall code r st r' st' r2 ca q v,
            prepare render code r = Ok (r2, ca, q) ->
            process_row net render max_retries code r st = (Ok r', st') ->
            r2 !! "PostalCode" = Some v -> notna v = true ->
            r' !! "PostalCode" = Some v).
  { intros code r st r' st' r2 ca q v Hp H Hv Hnotna.
    destruct (process_row_inv _ _ _ _ _ _ _ _ H)
      as (r2' & ca' & q' & g & st1 & out & Hp' & _ & Hs & _ & _).
    rewrite Hp in Hp'. injection Hp' as <- <- <-.
    by eapply store_result_keeps. }
  split; [|split; [|split; [exact Hafter|split]]].
  - intros code r st r' st' v H Hv Hnotna Htruthy.
    destruct (process_row_inv _ _ _ _ _ _ _ _ H)
      as (r2 & ca & q & g & st1 & out & Hp & _ & _ & _ & _).
    apply (Hafter _ _ _ _ _ _ _ _ _ Hp H); [|done].
    destruct (prepare_cells _ _ _ _ _ _ Hp) as [_ Hkept].
    rewrite Hkept; [done|]. unfold row_get. by rewrite Hv.
  - apply bc_handling_postal.
  - apply store_result_postal.
  - intros dfs st out st' H.
    destruct (combine_inv _ _ _ _ _ _ H) as (mask & Hmask & Hpass).
    destruct (reverse_pass_untouched _ _ _ _ _ _ _ Hmask Hpass) as [Hlen Hkeep].
    split.
    + rewrite Hlen. unfold pd_concat. by rewrite length_map.
    + intros i r v Hi Hv Hnotna.
      destruct (pd_concat_lookup _ _ _ _ Hi Hv) as (r' & Hr' & Hv').
      rewrite (Hkeep _ _ _ Hr' Hv' Hnotna). split; [done | by exists r'].
Qed.

(** A store whose file gave a postal code, and a service that returns
    another; and a store of British Columbia with the postal code in its
    address only. *)
Lemma postal_code_is_kept_witness :
  (exists r' st',
      process_row good_net sample_render default_max_retries "MB" oak_street_coded initial
      = (Ok r', st')
      /\ oak_street_coded !! "PostalCode" = Some (PStr "R7A 1B2")
      /\ r' !! "PostalCode" = Some (PStr "R7A 1B2"))
  /\ (exists clean extracted r2,
        clean_bc_address sample_render
          (PStr "12 Harbour Rd, Victoria, British Columbia V8W 1A1") (PStr "Victoria")
          "British Columbia" = Some (clean, extracted)
        /\ bc_handling sample_render "BC" harbour_road (PStr "") = Ok (r2, clean)
        /\ r2 !! "PostalCode"
           = (if truthy (row_get harbour_road "PostalCode" PNone)
              then harbour_road !! "PostalCode" else Some extracted)).
Proof.
  split.
  - assert (H : process_row good_net sample_render default_max_retries "MB"
                  oak_street_coded initial
                = (Ok (<["Longitude" := PFloat (-123 # 1)]>
                         (<["Latitude" := PFloat (49 # 1)]> oak_street_coded)),
                   mkState
                     (<["5 Oak St, Brandon, Manitoba, Canada"
                        := (PFloat (49 # 1), PFloat (-123 # 1), PStr "V5K 0A1")]> ∅)
                     [Forward "5 Oak St, Brandon, Manitoba, Canada"]
                     [Geocoded (PStr "5 Oak St") (PFloat (49 # 1)) (PFloat (-123 # 1))
                        (PStr "R7A 1B2")]))
      by (vm_compute; reflexivity).
    eexists _, _. split; [exact H|]. split; [vm_compute; reflexivity|].
    apply (proj1 (postal_code_is_kept good_net sample_render default_max_retries false)
             "MB" oak_street_coded initial _ _ (PStr "R7A 1B2") H).
    + vm_compute. reflexivity.
    + reflexivity.
    + reflexivity.
  - apply (proj1 (proj2 (postal_code_is_kept good_net sample_render default_max_retries
                           false)) harbour_road (PStr "")).
    + vm_compute. reflexivity.
    + vm_compute. reflexivity.
Defined.

(** C3, as the specification states it, fails: the special handling of
    British Columbia replaces a postal code that is falsy, and the number 0
    is not missing; with no code in the address and none from the service
    the record that [process_province] returns has [None]. *)
Lemma zero_postal_code_is_replaced :
  Forall (fun cell => file_cell cell.2 = true) (map_to_list zero_code)
  /\ zero_code !! "PostalCode" = Some (PInt 0)
  /\ notna (PInt 0) = true
  /\ exists r st',
       process_province no_match_net sample_render numeric_codes default_max_retries
         "BritishColumbia.csv" "BC" "csv" (list_to_map [("FullAddress", "FullAddress")])
         initial
       = (Ok (Some [r]), st')
       /\ r !! "PostalCode" = Some PNone.
Proof.
  split; [vm_compute; repeat constructor|]. split; [vm_compute; reflexivity|].
  split; [reflexivity|].
  exists (list_to_map
            [("City", PStr "Victoria"); ("Address", PStr "5 Oak St");
             ("FullProvinceName", PStr "British Columbia"); ("Longitude", PNone);
             ("Latitude", PNone); ("PostalCode", PNone); ("Province", PStr "BC")]),
    (mkState ∅
       (replicate 3 (Forward "5 Oak St, Victoria, British Columbia, Canada"))
       [Processing "BC" "BritishColumbia.csv";
        RetryFailed 1 3 "5 Oak St, Victoria, British Columbia, Canada";
        RetryFailed 2 3 "5 Oak St, Victoria, British Columbia, Canada";
        RetryFailed 3 3 "5 Oak St, Victoria, British Columbia, Canada";
        GeocodingFailed "5 Oak St, Victoria, British Columbia, Canada";
        Geocoded (PStr "5 Oak St") PNone PNone PNone]).
  split; vm_compute; reflexivity.
Qed.

(** ** The province of a batch *)

Section Province.

Variable net : list request -> request -> reply.
Variable render : pyval -> string.
Variable read_table : string -> string -> read_result.
Variable max_retries : Z.

Lemma reconcile_unknown code mapping df :
  PROVINCE_FULL_NAMES !! code = None -> reconcile code mapping df = Raise KeyError.
Proof. intros H. unfold reconcile. by rewrite H. Qed.

(** A turn of the loop over rows writes the address, the postal code and the
    coordinates, and no other cell. *)
Lemma process_row_other_cells code r st r' st' col :
  col <> "Latitude" -> col <> "Longitude" -> col <> "PostalCode" -> col <> "Address" ->
  process_row net render max_retries code r st = (Ok r', st') ->
  r' !! col = r !! col.
Proof.
  intros H1 H2 H3 H4 H.
  destruct (process_row_inv _ _ _ _ _ _ _ _ H)
    as (r2 & ca & q & g & st1 & out & Hp & _ & Hs & _ & _).
  destruct (store_result_cells _ _ _ Hs) as (_ & _ & Hother & _).
  destruct (prepare_cells _ _ _ _ _ _ Hp) as [Hprep _].
  rewrite Hother by done. by apply Hprep.
Qed.

(** With a table read and a province code that is not in the table of full
    names, [process_province] raises having printed its first line only. *)
Lemma process_province_unknown file code type mapping df st :
  PROVINCE_FULL_NAMES !! code = None ->
  (type =? "xls") || (type =? "xlsx") || (type =? "csv") = true ->
  read_table file type = Table df ->
  process_province net render read_table max_retries file code type mapping st
  = (Raise KeyError,
     mkState (cache st) (sent st) (printed st ++ [Processing code file])).
Proof.
  intros Hcode Htype Hread. unfold process_province.
  unfold bind at 1. unfold print at 1. rewrite Htype. simpl negb. cbv iota.
  rewrite Hread. unfold bind at 1. unfold lift.
  by rewrite (reconcile_unknown _ _ _ Hcode).
Qed.

End Province.

Section Reconciled.

Variable net : list request -> request -> reply.
Variable render : pyval -> string.
Variable read_table : string -> string -> read_result.
Variable max_retries : Z.

Lemma init_columns_Forall2 {A} (Q : A -> row -> Prop) rows df :
  (forall r r' col,
      col ∈ ["Latitude"; "Longitude"; "PostalCode"; "Address"] ->
      Q r r' -> Q r (<[col := PNone]> r')) ->
  Forall2 Q rows df -> Forall2 Q rows (init_columns df).
Proof.
  intros Hstep H. unfold init_columns. simpl.
  assert (Hset : forall col d,
            col ∈ ["Latitude"; "Longitude"; "PostalCode"; "Address"] ->
            Forall2 Q rows d -> Forall2 Q rows (set_column col PNone d)).
  { intros col d Hcol Hd. unfold set_column. apply Forall2_fmap_r.
    eapply Forall2_impl; [exact Hd|]. intros r r' Hr. by apply Hstep. }
  repeat match goal with
         | |- context [if has_column ?d ?c then _ else _] =>
             destruct (has_column d c)
         end;
    repeat (apply Hset; [set_solver|]); exact H.
Qed.

(** With a province code of the table, [reconcile] gives one row for each
    row of the province, in their order, with the code and the full name
    filled in. *)
Lemma reconcile_filled code mapping df name :
  PROVINCE_FULL_NAMES !! code = Some name ->
  exists out,
    reconcile code mapping df = Ok out
    /\ Forall2 (filled code name mapping) (rows_of_province code df) out.
Proof.
  intros Hname. unfold reconcile. rewrite Hname. eexists. split; [reflexivity|].
  fold (rows_of_province code df).
  apply init_columns_Forall2.
  { intros r r' col Hcol (Hprov & Hfull & Hother).
    assert (col <> "Province" /\ col <> "FullProvinceName") as [H1 H2]
      by (split; intros ->; set_solver).
    split; [by rewrite lookup_insert_ne|]. split; [by rewrite lookup_insert_ne|].
    intros col' Hcol'. rewrite lookup_insert_ne by (intros ->; set_solver).
    by apply Hother. }
  unfold set_column. rewrite <- !list_fmap_compose. apply Forall2_fmap_r.
  apply Forall_Forall2_diag, Forall_forall. intros r _. simpl.
  split; [by rewrite lookup_insert_ne, lookup_insert_eq|].
  split; [by rewrite lookup_insert_eq|].
  intros col Hcol.
  rewrite !lookup_insert_ne by (intros <-; set_solver). done.
Qed.

(** The records that [process_province] returns stand for the rows of the
    province, one for one and in their order. *)
Lemma process_province_returned file code type mapping st df out st' name :
  PROVINCE_FULL_NAMES !! code = Some name ->
  read_table file type = Table df ->
  process_province net render read_table max_retries file code type mapping st
  = (Ok (Some out), st') ->
  Forall2 (returned_for code name mapping) (rows_of_province code df) out.
Proof.
  intros Hname Hread H.
  destruct (process_province_inv _ _ _ _ _ _ _ _ _ _ _ H)
    as (df0 & df1 & rows & Hread' & Hrec & Hit & ->).
  rewrite Hread in Hread'. injection Hread' as <-.
  destruct (reconcile_filled code mapping df name Hname) as (df1' & Hrec' & Hfilled).
  rewrite Hrec in Hrec'. injection Hrec' as <-.
  destruct (iterrows_invariant net render max_retries (fun _ => True)
              (fun r r' : row =>
                 forall col,
                   col <> "Latitude" -> col <> "Longitude" -> col <> "PostalCode" ->
                   col <> "Address" -> r' !! col = r !! col)
              code) with (3 := Hit) as [Hrows _]; [|done|].
  { intros r s r' s' _ Hrow. split; [|done]. intros col H1 H2 H3 H4.
    by eapply process_row_other_cells. }
  apply Forall2_fmap_r.
  eapply Forall2_trans; [|exact Hfilled|exact Hrows].
  intros r r1 r2 (Hprov & Hfull & Hother) Hkept. unfold returned_for, compose. cbv beta.
  rewrite !select_target_lookup by set_solver.
  rewrite !Hkept by done. split; [done|]. split; [done|].
  split; apply Hother; set_solver.
Qed.

Lemma process_configs_cons c rest st :
  process_configs net render read_table max_retries (c :: rest) st =
    match process_province net render read_table max_retries
            c.1.1.1 c.1.1.2 c.1.2 c.2 st with
    | (Ok got, st1) =>
        let next := process_configs net render read_table max_retries rest st1 in
        (match next.1 with
         | Ok dfs =>
             Ok (match got with Some (r :: rows) => (r :: rows) :: dfs | _ => dfs end)
         | Raise e => Raise e
         end, next.2)
    | (Raise e, st1) =>
        process_configs net render read_table max_retries rest
          (mkState (cache st1) (sent st1) (printed st1 ++ [ErrorProcessing c.1.1.1 e]))
    end.
Proof.
  simpl process_configs. unfold bind at 1. unfold try_province, try_except.
  unfold bind at 1.
  destruct (process_province net render read_table max_retries _ _ _ _ st)
    as [[got|e] st1].
  - unfold ret at 1. unfold bind at 1. cbn zeta.
    destruct (process_configs net render read_table max_retries rest st1)
      as [[dfs|e] st2]; [|done].
    unfold ret. by destruct got as [[|r rows]|].
  - unfold bind at 1. unfold print at 1. unfold ret at 1. unfold bind at 1.
    by destruct (process_configs net render read_table max_retries rest _)
      as [[dfs|e'] st2].
Qed.

(** The loop over the configurations never raises, and runs every batch. *)
Lemma process_configs_batches configs st :
  exists dfs st',
    process_configs net render read_table max_retries configs st = (Ok dfs, st')
    /\ batches net render read_table max_retries configs st dfs st'.
Proof.
  revert st. induction configs as [|c rest IH]; intros st.
  - exists [], st. split; [done | constructor].
  - rewrite process_configs_cons.
    destruct (process_province net render read_table max_retries _ _ _ _ st)
      as [[got|e] st1] eqn:Hp.
    + destruct (IH st1) as (dfs & st2 & -> & Hrest). cbn zeta. cbn [fst snd].
      destruct got as [[|r rows]|].
      * exists dfs, st2. split; [done|]. eapply batch_nothing; eauto.
      * exists ((r :: rows) :: dfs), st2. split; [done|]. eapply batch_frame; eauto.
      * exists dfs, st2. split; [done|]. eapply batch_nothing; eauto.
    + destruct (IH (mkState (cache st1) (sent st1)
                      (printed st1 ++ [ErrorProcessing c.1.1.1 e])))
        as (dfs & st2 & -> & Hrest).
      exists dfs, st2. split; [done|]. eapply batch_error; eauto.
Qed.

Lemma process_configs_app before after st :
  process_configs net render read_table max_retries (before ++ after) st =
    match process_configs net render read_table max_retries before st with
    | (Ok dfs1, st1) =>
        let next := process_configs net render read_table max_retries after st1 in
        (match next.1 with Ok dfs2 => Ok (dfs1 ++ dfs2) | Raise e => Raise e end, next.2)
    | (Raise e, st1) => (Raise e, st1)
    end.
Proof.
  revert st. induction before as [|c before IH]; intros st.
  - simpl app. simpl process_configs at 2. unfold ret. cbn zeta.
    by destruct (process_configs net render read_table max_retries after st)
      as [[dfs|e] st1].
  - simpl app. rewrite !process_configs_cons.
    destruct (process_province net render read_table max_retries _ _ _ _ st)
      as [[got|e] st1].
    + cbn zeta. rewrite IH.
      destruct (process_configs net render read_table max_retries before st1)
        as [[dfs1|e] st2]; [|done].
      cbn zeta. cbn [fst snd].
      destruct (process_configs net render read_table max_retries after st2)
        as [[dfs2|e] st3]; [|done].
      cbn [fst snd]. by destruct got as [[|r rows]|].
    + apply IH.
Qed.

End Reconciled.

(** C8.  With the table of its file read, a batch whose province code is
    not one of the thirteen of [PROVINCE_FULL_NAMES] raises the [KeyError] of
    the lookup (the specification's ConfigurationError): [reconcile] raises
    it, [process_province] raises it having sent no request, and the loop of
    [process_all_provinces], wherever the batch stands in the table, returns
    the frames of the batches before it followed by the frames of the
    batches after it, which it runs from the state that the failed batch
    left with the error printed.  The loop never raises and runs every
    batch of its table through [process_province], keeping the frames that
    have rows.  With a code of the table, [reconcile] gives one row for each
    row of the province, with the code and the full name that the table
    gives filled in and the other columns of the file as they were, and the
    records that [process_province] returns stand one for one for these
    rows, each with the code, the full name, and the store's name and
    city. *)
Theorem unknown_province_fails_its_batch_only net render read_table max_retries
    file code type mapping df st :
  (type =? "xls") || (type =? "xlsx") || (type =? "csv") = true ->
  read_table file type = Table df ->
  (PROVINCE_FULL_NAMES !! code = None ->
     reconcile code mapping df = Raise KeyError
     /\ process_province net render read_table max_retries file code type mapping st
        = (Raise KeyError,
           mkState (cache st) (sent st) (printed st ++ [Processing code file]))
     /\ forall before after st0 dfs1,
          process_configs net render read_table max_retries before st0 = (Ok dfs1, st) ->
          exists dfs2 st',
            process_configs net render read_table max_retries
              (before ++ (file, code, type, mapping) :: after) st0
            = (Ok (dfs1 ++ dfs2), st')
            /\ process_configs net render read_table max_retries after
                 (mkState (cache st) (sent st)
                    (printed st ++ [Processing code file; ErrorProcessing file KeyError]))
               = (Ok dfs2, st')
            /\ batches net render read_table max_retries after
                 (mkState (cache st) (sent st)
                    (printed st ++ [Processing code file; ErrorProcessing file KeyError]))
                 dfs2 st')
  /\ (forall configs st0,
        exists dfs st',
          process_configs net render read_table max_retries configs st0 = (Ok dfs, st')
          /\ batches net render read_table max_retries configs st0 dfs st')
  /\ (forall name,
        PROVINCE_FULL_NAMES !! code = Some name ->
        (exists out,
            reconcile code mapping df = Ok out
            /\ Forall2 (filled code name mapping) (rows_of_province code df) out)
        /\ forall out st',
             process_province net render read_table max_retries file code type mapping st
             = (Ok (Some out), st') ->
             Forall2 (returned_for code name mapping) (rows_of_province code df) out).
Proof.
  intros Htype Hread. split; [|split].
  - intros Hcode. split; [by apply reconcile_unknown|].
    pose proof (process_province_unknown net render read_table max_retries
                  file code type mapping df st Hcode Htype Hread) as H.
    split; [exact H|].
    intros before after st0 dfs1 Hbefore.
    destruct (process_configs_batches net render read_table max_retries after
                (mkState (cache st) (sent st)
                   (printed st ++ [Processing code file; ErrorProcessing file KeyError])))
      as (dfs2 & st' & Hafter & Hbatches).
    exists dfs2, st'. split; [|by split].
    rewrite process_configs_app, Hbefore. cbn zeta.
    rewrite process_configs_cons. cbn [fst snd]. rewrite H.
    cbn [cache sent printed]. rewrite <- app_assoc. simpl app.
    by rewrite Hafter.
  - apply process_configs_batches.
  - intros name Hname. split; [by apply reconcile_filled|].
    intros out st'. by apply process_province_returned.
Qed.

(** A batch with a code that is no province, followed by one of Manitoba:
    the loop returns the frame of the second, whose record carries the full
    name of the table. *)
Lemma unknown_province_witness :
  PROVINCE_FULL_NAMES !! "ZZ" = None
  /\ PROVINCE_FULL_NAMES !! "MB" = Some "Manitoba"
  /\ (exists st',
        process_configs good_net sample_render one_store default_max_retries
          ([] ++ [("Atlantis.csv", "ZZ", "csv", address_mapping);
                  ("Manitoba.csv", "MB", "csv", address_mapping)]) initial
        = (Ok ([] ++ [[brandon_record]]), st')
        /\ printed st'
           = [Processing "ZZ" "Atlantis.csv"; ErrorProcessing "Atlantis.csv" KeyError;
              Processing "MB" "Manitoba.csv";
              Geocoded (PStr "5 Oak St") (PFloat (49 # 1)) (PFloat (-123 # 1))
                (PStr "V5K 0A1")]
        /\ sent st' = [Forward "5 Oak St, Brandon, Manitoba, Canada"])
  /\ Forall2 (returned_for "MB" "Manitoba" address_mapping)
       (rows_of_province "MB"
          [list_to_map [("FullAddress", PStr "5 Oak St"); ("City", PStr "Brandon")]])
       [brandon_record].
Proof.
  assert (Hzz : PROVINCE_FULL_NAMES !! "ZZ" = None) by (vm_compute; reflexivity).
  assert (Hmb : PROVINCE_FULL_NAMES !! "MB" = Some "Manitoba")
    by (vm_compute; reflexivity).
  split; [exact Hzz|]. split; [exact Hmb|]. split.
  - destruct (proj2 (proj2 (proj1 (unknown_province_fails_its_batch_only good_net
                                     sample_render one_store default_max_retries
                                     "Atlantis.csv" "ZZ" "csv" address_mapping _ initial
                                     eq_refl eq_refl) Hzz))
                [] [("Manitoba.csv", "MB", "csv", address_mapping)] initial [] eq_refl)
      as (dfs2 & st' & Hall & Hafter & _).
    assert (Hrun :
              process_configs good_net sample_render one_store default_max_retries
                [("Manitoba.csv", "MB", "csv", address_mapping)]
                (mkState (cache initial) (sent initial)
                   (printed initial
                    ++ [Processing "ZZ" "Atlantis.csv";
                        ErrorProcessing "Atlantis.csv" KeyError]))
              = (Ok [[brandon_record]],
                 mkState
                   (<["5 Oak St, Brandon, Manitoba, Canada"
                      := (PFloat (49 # 1), PFloat (-123 # 1), PStr "V5K 0A1")]> ∅)
                   [Forward "5 Oak St, Brandon, Manitoba, Canada"]
                   [Processing "ZZ" "Atlantis.csv";
                    ErrorProcessing "Atlantis.csv" KeyError;
                    Processing "MB" "Manitoba.csv";
                    Geocoded (PStr "5 Oak St") (PFloat (49 # 1)) (PFloat (-123 # 1))
                      (PStr "V5K 0A1")]))
      by (vm_compute; reflexivity).
    rewrite Hrun in Hafter. injection Hafter as <- <-.
    eexists. split; [exact Hall|]. split; reflexivity.
  - apply (proj2 (proj2 (proj2 (unknown_province_fails_its_batch_only good_net
                                  sample_render one_store default_max_retries
                                  "Manitoba.csv" "MB" "csv" address_mapping _ initial
                                  eq_refl eq_refl)) "Manitoba" Hmb)
             [brandon_record]
             (mkState
                (<["5 Oak St, Brandon, Manitoba, Canada"
                   := (PFloat (49 # 1), PFloat (-123 # 1), PStr "V5K 0A1")]> ∅)
                [Forward "5 Oak St, Brandon, Manitoba, Canada"]
                [Processing "MB" "Manitoba.csv";
                 Geocoded (PStr "5 Oak St") (PFloat (49 # 1)) (PFloat (-123 # 1))
                   (PStr "V5K 0A1")])).
    vm_compute. reflexivity.
Defined.

(** ** Further properties of the pipeline *)

(** X1.  The loop over rows returns as many rows as it was given, in the
    same order, and changes no cell of a row other than its address, postal
    code, latitude and longitude. *)
Theorem iterrows_keeps_rows_in_order net render max_retries code df st out st' :
  iterrows net render max_retries code df st = (Ok out, st') ->
  length out = length df
  /\ forall i r,
       df !! i = Some r ->
       exists r',
         out !! i = Some r'
         /\ forall col,
              col <> "Latitude" -> col <> "Longitude" -> col <> "PostalCode" ->
              col <> "Address" ->
              r' !! col = r !! col.
Proof.
  intros H.
  destruct (iterrows_invariant net render max_retries (fun _ => True)
              (fun r r' : row =>
                 forall col,
                   col <> "Latitude" -> col <> "Longitude" -> col <> "PostalCode" ->
                   col <> "Address" -> r' !! col = r !! col)
              code) with (3 := H) as [Hrows _]; [|done|].
  { intros r s r' s' _ Hrow. split; [|done]. intros col H1 H2 H3 H4.
    by eapply process_row_other_cells. }
  split; [symmetry; by eapply Forall2_length|].
  intros i r Hi. destruct (Forall2_lookup_l _ _ _ _ _ Hrows Hi) as (r' & Hr' & Hcols).
  by exists r'.
Qed.

(** Two stores of Manitoba. *)
Lemma iterrows_keeps_rows_in_order_witness :
  exists out st',
    iterrows good_net sample_render default_max_retries "MB"
      [oak_street; oak_street_coded] initial = (Ok out, st')
    /\ length out = 2
    /\ forall i r,
         [oak_street; oak_street_coded] !! i = Some r ->
         exists r',
           out !! i = Some r'
           /\ forall col,
                col <> "Latitude" -> col <> "Longitude" -> col <> "PostalCode" ->
                col <> "Address" ->
                r' !! col = r !! col.
Proof.
  eexists _, _. split; [vm_compute; reflexivity|].
  eapply (iterrows_keeps_rows_in_order good_net sample_render default_max_retries "MB"
            [oak_street; oak_street_coded] initial).
  vm_compute. reflexivity.
Defined.

(** X2.  A query that is not cached and that the service answers with a
    success: [get_coordinates] sends exactly one request, returns the
    latitude and longitude of the first result with the [long_name] of its
    first component tagged ["postal_code"], and stores that result in the
    cache under the query; nothing is printed. *)
Theorem successful_lookup_is_cached net a st g :
  a <> "" -> cache st !! a = None ->
  lookup_resolves (net (sent st) (Forward a)) g ->
  get_coordinates net (PStr a) st =
    (Ok g, mkState (<[a := g]> (cache st)) (sent st ++ [Forward a]) (printed st)).
Proof.
  intros Ha Hc Hg. apply get_coordinates_resolved; [done | done|].
  by apply resolution_resolves.
Qed.

(** A first lookup that succeeds. *)
Lemma successful_lookup_is_cached_witness :
  get_coordinates good_net (PStr "1 Main St") initial =
    (Ok (PFloat (49 # 1), PFloat (-123 # 1), PStr "V5K 0A1"),
     mkState (<["1 Main St" := (PFloat (49 # 1), PFloat (-123 # 1), PStr "V5K 0A1")]>
                (cache initial))
       (sent initial ++ [Forward "1 Main St"]) (printed initial)).
Proof.
  apply (successful_lookup_is_cached good_net "1 Main St" initial).
  - discriminate.
  - reflexivity.
  - apply resolution_resolves. reflexivity.
Defined.

Section Backfill.

Variable net : list request -> request -> reply.
Variable empty_array_raises : bool.

(** What a reverse lookup returns depends on the requests sent before it
    and on nothing else of the state. *)
Lemma get_postal_from_coords_sent lat lng st1 st2 :
  sent st1 = sent st2 ->
  (get_postal_from_coords net lat lng st1).1 = (get_postal_from_coords net lat lng st2).1.
Proof.
  intros H. unfold get_postal_from_coords, bind, try_except, fetch, lift, print, ret.
  rewrite H. destruct (net (sent st2) (Reverse lat lng)) as [| |data]; simpl; try done.
  destruct (getitem data "status") as [status|e]; simpl; [|done].
  destruct (eq_str status "OK"); simpl; [|done].
  by destruct (reverse_result data) as [[long_name|]|e].
Qed.

Lemma notna_truth_scalar v :
  is_list v = false -> notna_truth empty_array_raises v = Ok (notna v).
Proof. by destruct v. Qed.

(** The body of the loop on a row that is asked for. *)
Lemma fill_postal_asked (r : row) st lat lng :
  r !! "Latitude" = Some lat -> r !! "Longitude" = Some lng ->
  is_list lat = false -> is_list lng = false -> is_Some (r !! "Address") ->
  notna lat && notna lng = true ->
  exists postal out,
    (get_postal_from_coords net lat lng st).1 = Ok postal
    /\ fill_postal net empty_array_raises r st =
         (Ok (<["PostalCode" := postal]> r),
          mkState (cache st) (sent st ++ [Reverse lat lng]) (printed st ++ out)).
Proof.
  intros Hlat Hlng Hl1 Hl2 [address Haddress] Hboth.
  apply andb_true_iff in Hboth as [H1 H2].
  destruct (get_postal_from_coords_run net lat lng st) as (postal & out & H).
  specialize (H (cache st)). rewrite state_eta in H.
  exists postal, (out ++ [FilledMissingPostal address postal]).
  split; [by rewrite H|].
  unfold fill_postal, cell. rewrite Hlat, Hlng.
  unfold bind at 1. unfold lift at 1. unfold bind at 1. unfold lift at 1.
  unfold bind at 1. unfold lift at 1.
  rewrite !notna_truth_scalar by done. rewrite H1, H2. cbn [rbind].
  unfold bind at 1. rewrite H. rewrite lookup_insert_ne by done. rewrite Haddress.
  unfold bind, lift, print, ret. cbn [cache sent printed]. by rewrite app_assoc.
Qed.

(** The body of the loop on a row with a coordinate missing. *)
Lemma fill_postal_not_asked (r : row) st lat lng :
  r !! "Latitude" = Some lat -> r !! "Longitude" = Some lng ->
  is_list lat = false -> is_list lng = false ->
  notna lat && notna lng = false ->
  fill_postal net empty_array_raises r st = (Ok r, st).
Proof.
  intros Hlat Hlng Hl1 Hl2 Hboth.
  unfold fill_postal, cell. rewrite Hlat, Hlng.
  unfold bind at 1. unfold lift at 1. unfold bind at 1. unfold lift at 1.
  unfold bind at 1. unfold lift at 1.
  rewrite !notna_truth_scalar by done. cbn [rbind].
  destruct (notna lat); simpl in Hboth; [rewrite Hboth|]; reflexivity.
Qed.

(** A list of several cells as a coordinate: the test of line 295 raises. *)
Lemma fill_postal_raises (r : row) st lat lng :
  r !! "Latitude" = Some lat -> r !! "Longitude" = Some lng ->
  is_list lat = true -> 2 <= array_size lat ->
  fill_postal net empty_array_raises r st = (Raise ValueError, st).
Proof.
  intros Hlat Hlng Hl Hsize.
  unfold fill_postal, cell. rewrite Hlat, Hlng.
  unfold bind at 1. unfold lift at 1. unfold bind at 1. unfold lift at 1.
  unfold bind at 1. unfold lift at 1.
  destruct lat; try discriminate. unfold notna_truth.
  destruct (array_size (PList l)) as [|[|n]]; [lia | lia | reflexivity].
Qed.

Lemma reverse_pass_backfills master st :
  Forall pass_row master ->
  exists mask out st',
    postal_isna master = Ok mask
    /\ reverse_pass net empty_array_raises master mask st = (Ok out, st')
    /\ cache st' = cache st
    /\ sent st' = sent st ++ map reverse_request (filter (fun r => asked r = true) master)
    /\ length out = length master
    /\ forall i r,
         master !! i = Some r ->
         if asked r then
           exists postal,
             (get_postal_from_coords net
                (row_get r "Latitude" PNone) (row_get r "Longitude" PNone)
                (mkState ∅
                   (sent st
                    ++ map reverse_request
                         (filter (fun r => asked r = true) (take i master)))
                   [])).1 = Ok postal
             /\ out !! i = Some (<["PostalCode" := postal]> r)
         else out !! i = Some r.
Proof.
  intros Hrows. revert st.
  induction Hrows as [|r rest Hr _ IH]; intros st.
  - exists [], [], st. split; [done|]. split; [done|]. split; [done|].
    split; [simpl; by rewrite app_nil_r|]. split; [done|].
    intros i r H. by rewrite lookup_nil in H.
  - destruct Hr as ([v Hv] & Haddress & lat & lng & Hlat & Hlng & Hl1 & Hl2).
    assert (Hasked : asked r = isna v && notna lat && notna lng).
    { unfold asked, row_get. by rewrite Hv, Hlat, Hlng. }
    assert (Hreq : reverse_request r = Reverse lat lng).
    { unfold reverse_request, row_get. by rewrite Hlat, Hlng. }
    assert (Hstep : exists r' st1,
              (if isna v then fill_postal net empty_array_raises r else ret r) st
              = (Ok r', st1)
              /\ cache st1 = cache st
              /\ sent st1 = sent st ++ (if asked r then [reverse_request r] else [])
              /\ if asked r then
                   exists postal,
                     (get_postal_from_coords net lat lng
                        (mkState ∅ (sent st) [])).1 = Ok postal
                     /\ r' = <["PostalCode" := postal]> r
                 else r' = r).
    { rewrite Hasked, Hreq. destruct (isna v); simpl.
      - destruct (notna lat && notna lng) eqn:Hboth.
        + destruct (fill_postal_asked r st lat lng Hlat Hlng Hl1 Hl2 Haddress Hboth)
            as (postal & out & Hp & ->).
          eexists _, _. split; [reflexivity|]. split; [done|]. split; [done|].
          exists postal. split; [|done].
          by rewrite <- Hp; apply get_postal_from_coords_sent.
        + rewrite (fill_postal_not_asked r st lat lng Hlat Hlng Hl1 Hl2 Hboth).
          exists r, st. by rewrite app_nil_r.
      - exists r, st. unfold ret. by rewrite app_nil_r. }
    destruct Hstep as (r' & st1 & Hfirst & Hc1 & Hs1 & Hr').
    destruct (IH st1) as (mask & out & st' & Hmask & Hpass & Hc & Hs & Hlen & Hout).
    exists (isna v :: mask), (r' :: out), st'.
    split; [simpl; unfold cell; by rewrite Hv, Hmask|].
    split.
    { simpl reverse_pass. unfold bind at 1. rewrite Hfirst.
      unfold bind at 1. by rewrite Hpass. }
    split; [congruence|]. split.
    { rewrite Hs, Hs1, filter_cons. destruct (asked r) eqn:Ha.
      - rewrite decide_True by done. simpl. by rewrite <- app_assoc.
      - rewrite decide_False by (by intros ?). by rewrite app_nil_r. }
    split; [simpl; by rewrite Hlen|].
    intros [|i] r0; simpl.
    + intros [= <-]. rewrite app_nil_r. unfold row_get at 1 2.
      rewrite Hlat, Hlng. simpl. destruct (asked r); [|by rewrite Hr'].
      destruct Hr' as (postal & Hp & ->). by exists postal.
    + intros Hi. specialize (Hout i r0 Hi). rewrite filter_cons.
      destruct (asked r0); [|done].
      destruct Hout as (postal & Hp & Ho). exists postal. split; [|done].
      rewrite <- Hp. apply get_postal_from_coords_sent. cbn [sent]. rewrite Hs1.
      destruct (asked r) eqn:Ha.
      * rewrite decide_True by done. simpl. by rewrite <- app_assoc.
      * rewrite decide_False by (by intros ?). by rewrite app_nil_r.
Qed.

End Backfill.

(** X3.  The reverse pass of lines 292-299 over a frame whose rows have
    the columns it reads and coordinates that are not lists: it does not
    raise and leaves the cache as it was; it asks the service for the rows
    of which the postal code is missing and the two coordinates are there,
    for these only, one request each in the order of the frame; such a row
    is returned with what the reverse lookup returned (possibly [None]) as
    postal code, every other row as it was.  A row of which the postal code
    is missing and the latitude is a list of several cells makes the
    pass raise [ValueError] at the test of line 295. *)
Theorem missing_postal_code_is_backfilled net empty_array_raises master st :
  (Forall pass_row master ->
   exists mask out st',
     postal_isna master = Ok mask
     /\ reverse_pass net empty_array_raises master mask st = (Ok out, st')
     /\ cache st' = cache st
     /\ sent st' = sent st ++ map reverse_request (filter (fun r => asked r = true) master)
     /\ length out = length master
     /\ forall i r,
          master !! i = Some r ->
          if asked r then
            exists postal,
              (get_postal_from_coords net
                 (row_get r "Latitude" PNone) (row_get r "Longitude" PNone)
                 (mkState ∅
                    (sent st
                     ++ map reverse_request
                          (filter (fun r => asked r = true) (take i master)))
                    [])).1 = Ok postal
              /\ out !! i = Some (<["PostalCode" := postal]> r)
          else out !! i = Some r)
  /\ (forall (r : row) rest mask lat lng,
        r !! "Latitude" = Some lat -> r !! "Longitude" = Some lng ->
        is_list lat = true -> 2 <= array_size lat ->
        reverse_pass net empty_array_raises (r :: rest) (true :: mask) st
        = (Raise ValueError, st)).
Proof.
  split; [apply reverse_pass_backfills|].
  intros r rest mask lat lng Hlat Hlng Hl Hsize.
  simpl reverse_pass. unfold bind at 1.
  by rewrite (fill_postal_raises net empty_array_raises r st lat lng).
Qed.

Lemma pass_row_intro (r : row) postal_code address lat lng :
  r !! "PostalCode" = Some postal_code -> r !! "Address" = Some address ->
  r !! "Latitude" = Some lat -> r !! "Longitude" = Some lng ->
  is_list lat = false -> is_list lng = false ->
  pass_row r.
Proof. intros. split; [done|]. split; [done|]. by exists lat, lng. Qed.

(** A frame of three stores: one with coordinates and no postal code, one
    with a postal code, one with neither; and a store whose latitude is a
    list. *)
Lemma missing_postal_code_is_backfilled_witness :
  Forall pass_row [located; oak_street_coded; oak_street]
  /\ (exists mask out st',
        postal_isna [located; oak_street_coded; oak_street] = Ok mask
        /\ reverse_pass good_net false [located; oak_street_coded; oak_street] mask initial
           = (Ok out, st')
        /\ cache st' = cache initial
        /\ sent st'
           = sent initial
             ++ map reverse_request
                  (filter (fun r => asked r = true)
                     [located; oak_street_coded; oak_street])
        /\ length out = length [located; oak_street_coded; oak_street]
        /\ forall i r,
             [located; oak_street_coded; oak_street] !! i = Some r ->
             if asked r then
               exists postal,
                 (get_postal_from_coords good_net
                    (row_get r "Latitude" PNone) (row_get r "Longitude" PNone)
                    (mkState ∅
                       (sent initial
                        ++ map reverse_request
                             (filter (fun r => asked r = true)
                                (take i [located; oak_street_coded; oak_street])))
                       [])).1 = Ok postal
                 /\ out !! i = Some (<["PostalCode" := postal]> r)
             else out !! i = Some r)
  /\ map asked [located; oak_street_coded; oak_street] = [true; false; false]
  /\ reverse_pass good_net false [listed; oak_street] [true; true] initial
     = (Raise ValueError, initial).
Proof.
  assert (Hrows : Forall pass_row [located; oak_street_coded; oak_street]).
  { constructor; [|constructor; [|constructor; [|constructor]]].
    - apply (pass_row_intro located PNone (PStr "5 Oak St")
               (PFloat (49 # 1)) (PFloat (-123 # 1)));
        try reflexivity; vm_compute; reflexivity.
    - apply (pass_row_intro oak_street_coded (PStr "R7A 1B2") (PStr "5 Oak St")
               PNone PNone);
        try reflexivity; vm_compute; reflexivity.
    - apply (pass_row_intro oak_street PNone (PStr "5 Oak St") PNone PNone);
        try reflexivity; vm_compute; reflexivity. }
  split; [exact Hrows|]. split.
  - exact (proj1 (missing_postal_code_is_backfilled good_net false
                    [located; oak_street_coded; oak_street] initial) Hrows).
  - split; [vm_compute; reflexivity|].
    apply (proj2 (missing_postal_code_is_backfilled good_net false
                    [located; oak_street_coded; oak_street] initial)
             listed [oak_street] [true]
             (PList [PFloat (49 # 1); PFloat (50 # 1)]) (PFloat (-123 # 1))).
    + vm_compute. reflexivity.
    + vm_compute. reflexivity.
    + reflexivity.
    + vm_compute. lia.
Defined.

(** ** How many requests a record costs *)

Section Requests.

Variable net : list request -> request -> reply.
Variable render : pyval -> string.
Variable max_retries : Z.




End Requests.



(** ** A record that resolves after failed attempts *)

Section Resolves.

Variable net : list request -> request -> reply.
Variable max_retries : Z.

Lemma retry_resolves_after q k :
  q <> "" ->
  forall attempt n last st g,
    cache st !! q = None -> k < n ->
    (forall j, j < k ->
       resolution (net (sent st ++ replicate j (Forward q)) (Forward q)) = None) ->
    resolution (net (sent st ++ replicate k (Forward q)) (Forward q)) = Some g ->
    is_none g.1.1 = false -> is_none g.1.2 = false ->
    exists out,
      retry net max_retries q attempt n last st =
        (Ok g, mkState (<[q := g]> (cache st)) (sent st ++ replicate (S k) (Forward q))
                 (printed st ++ out)).
Proof.
  intros Hq. induction k as [|k IH]; intros attempt n last st g Hc Hk Hf Hr Hlat Hlng;
    (destruct n as [|n]; [lia|]); rewrite retry_S.
  - simpl in Hr. rewrite app_nil_r in Hr.
    rewrite (get_coordinates_resolved net q g st Hq Hc Hr).
    rewrite Hlat, Hlng. simpl. exists []. by rewrite app_nil_r.
  - assert (H0 : resolution (net (sent st) (Forward q)) = None).
    { specialize (Hf 0). simpl in Hf. rewrite app_nil_r in Hf. apply Hf. lia. }
    destruct (get_coordinates_failed net q st Hq Hc H0) as [out1 ->].
    cbn [unresolved fst snd is_none negb andb cache sent printed].
    edestruct (IH (S attempt) n unresolved
                 (mkState (cache st) (sent st ++ [Forward q])
                    ((printed st ++ out1) ++ [RetryFailed attempt max_retries q])) g)
      as [out2 ->]; try done; [lia | | |].
    { intros j Hj. cbn [sent]. rewrite <- app_assoc. apply (Hf (S j)). lia. }
    { cbn [sent]. by rewrite <- app_assoc. }
    cbn [cache sent printed]. exists (out1 ++ [RetryFailed attempt max_retries q] ++ out2).
    f_equal. f_equal.
    + by rewrite <- app_assoc.
    + by rewrite <- !app_assoc.
Qed.

End Resolves.

(** X5.  A record whose first [k] lookups fail and whose next one, still
    within [max_retries], resolves with both coordinates: the loop stops
    there, after [k + 1] requests; the record gets that latitude and
    longitude, and the postal code of the result when its own is missing and
    the result's is truthy; the result is cached under the query. *)
Theorem record_resolves_after_failed_attempts
    net render max_retries code r st r2 ca q k g old :
  prepare render code r = Ok (r2, ca, q) ->
  r2 !! "PostalCode" = Some old ->
  cache st !! q = None ->
  k < Z.to_nat max_retries ->
  (forall j, j < k ->
     lookup_fails (net (sent st ++ replicate j (Forward q)) (Forward q))) ->
  lookup_resolves (net (sent st ++ replicate k (Forward q)) (Forward q)) g ->
  is_none g.1.1 = false -> is_none g.1.2 = false ->
  exists r' st',
    process_row net render max_retries code r st = (Ok r', st')
    /\ r' !! "Latitude" = Some g.1.1 /\ r' !! "Longitude" = Some g.1.2
    /\ r' !! "PostalCode" = Some (if isna old && truthy g.2 then g.2 else old)
    /\ sent st' = sent st ++ replicate (S k) (Forward q)
    /\ cache st' = <[q := g]> (cache st).
Proof.
  intros Hp Hold Hc Hk Hf Hg Hlat Hlng.
  pose proof (prepare_query render _ _ _ _ _ Hp) as Hq.
  destruct (retry_resolves_after net max_retries q k Hq 1 (Z.to_nat max_retries)
              unresolved st g Hc Hk) as [out Hr]; try done.
  { intros j Hj. apply resolution_fails. by apply Hf. }
  { by apply resolution_resolves. }
  assert (Hs : exists r', store_result r2 g = Ok r').
  { unfold store_result, cell. rewrite !lookup_insert_ne by done. rewrite Hold.
    simpl. eauto. }
  destruct Hs as [r' Hs].
  destruct (process_row_ok net render max_retries code r st _ _ _ _ _ _ Hp Hr Hs)
    as [st' Hrow].
  destruct (process_row_inv net render max_retries _ _ _ _ _ Hrow)
    as (r2' & ca' & q' & g' & st1 & out' & Hp' & Hr' & _ & -> & _).
  rewrite Hp in Hp'. injection Hp' as <- <- <-.
  rewrite Hr in Hr'. injection Hr' as <- <-.
  destruct (store_result_cells _ _ _ Hs) as (Hlat' & Hlng' & _ & old' & Hold' & Hpc).
  assert (old' = old) as -> by congruence.
  eexists r', _. split; [exact Hrow|]. by repeat split.
Qed.

(** A store of Manitoba and a service that answers from the second request
    on. *)
Lemma record_resolves_after_failed_attempts_witness :
  exists r' st',
    process_row flaky_net sample_render default_max_retries "MB" oak_street initial
    = (Ok r', st')
    /\ r' !! "Latitude" = Some (PFloat (49 # 1))
    /\ r' !! "Longitude" = Some (PFloat (-123 # 1))
    /\ r' !! "PostalCode" = Some (PStr "V5K 0A1")
    /\ sent st' = sent initial
                  ++ replicate 2 (Forward "5 Oak St, Brandon, Manitoba, Canada")
    /\ cache st' = <["5 Oak St, Brandon, Manitoba, Canada" :=
                      (PFloat (49 # 1), PFloat (-123 # 1), PStr "V5K 0A1")]>
                     (cache initial).
Proof.
  apply (record_resolves_after_failed_attempts flaky_net sample_render
           default_max_retries "MB" oak_street initial oak_street (PStr "5 Oak St")
           "5 Oak St, Brandon, Manitoba, Canada" 1
           (PFloat (49 # 1), PFloat (-123 # 1), PStr "V5K 0A1") PNone).
  - vm_compute. reflexivity.
  - vm_compute. reflexivity.
  - reflexivity.
  - vm_compute. lia.
  - intros j Hj. assert (j = 0) as -> by lia. exact I.
  - apply resolution_resolves. reflexivity.
  - reflexivity.
  - reflexivity.
Defined.

(** ** Files that give no table *)

Section Unreadable.

Variable net : list request -> request -> reply.
Variable render : pyval -> string.
Variable read_table : string -> string -> read_result.
Variable max_retries : Z.

Lemma process_province_unreadable file code type mapping st :
  unreadable read_table (file, code, type, mapping) ->
  exists out,
    process_province net render read_table max_retries file code type mapping st
    = (Ok None, mkState (cache st) (sent st) (printed st ++ out)).
Proof.
  unfold unreadable, supported. cbn [fst snd]. intros H.
  unfold process_province. unfold bind at 1. unfold print at 1.
  destruct ((type =? "xls") || (type =? "xlsx") || (type =? "csv")) eqn:Htype.
  - destruct H as [H|H]; [discriminate|]. cbn [negb].
    destruct (read_table file type) as [df| |] eqn:Hread.
    + by destruct (H df).
    + unfold bind, print, ret. cbn [cache sent printed]. eexists [_; _].
      by rewrite <- app_assoc.
    + unfold bind, print, ret. cbn [cache sent printed]. eexists [_; _].
      by rewrite <- app_assoc.
  - cbn [negb]. unfold bind, print, ret. cbn [cache sent printed].
    eexists [_; _]. by rewrite <- app_assoc.
Qed.

Lemma process_configs_unreadable configs st :
  Forall (unreadable read_table) configs ->
  exists out,
    process_configs net render read_table max_retries configs st
    = (Ok [], mkState (cache st) (sent st) (printed st ++ out)).
Proof.
  intros H. revert st. induction H as [|c rest Hc _ IH]; intros st.
  - exists []. simpl. unfold ret. by rewrite app_nil_r, state_eta.
  - destruct c as [[[file code] type] mapping].
    destruct (process_province_unreadable file code type mapping st Hc) as [out1 H1].
    simpl process_configs. unfold bind at 1. unfold try_province, try_except.
    unfold bind at 1. cbn [fst snd]. rewrite H1. unfold ret at 1.
    destruct (IH (mkState (cache st) (sent st) (printed st ++ out1))) as [out2 H2].
    unfold bind at 1. rewrite H2. unfold ret. cbn [cache sent printed].
    exists (out1 ++ out2). by rewrite app_assoc.
Qed.

End Unreadable.

(** X6.  A batch of which the file gives no table (no reader for its type,
    or a reader that raises) returns [None] having sent no request; and when
    no file of the table of configurations gives a table,
    [process_all_provinces] raises [ValueError], again without a request and
    with the cache as it was. *)
Theorem unreadable_files_cost_no_request
    net render read_table max_retries empty_array_raises st :
  (forall file code type mapping,
      unreadable read_table (file, code, type, mapping) ->
      exists out,
        process_province net render read_table max_retries file code type mapping st
        = (Ok None, mkState (cache st) (sent st) (printed st ++ out)))
  /\ (Forall (unreadable read_table) province_configs ->
      exists out,
        process_all_provinces net render read_table max_retries empty_array_raises st
        = (Raise ValueError, mkState (cache st) (sent st) (printed st ++ out))).
Proof.
  split.
  - intros file code type mapping. apply process_province_unreadable.
  - intros H.
    destruct (process_configs_unreadable net render read_table max_retries
                province_configs st H) as [out Hout].
    exists out. unfold process_all_provinces. unfold bind. by rewrite Hout.
Qed.

(** No file can be read. *)
Lemma unreadable_files_cost_no_request_witness :
  Forall (unreadable no_files) province_configs
  /\ exists out,
       process_all_provinces good_net sample_render no_files default_max_retries false
         initial
       = (Raise ValueError,
          mkState (cache initial) (sent initial) (printed initial ++ out)).
Proof.
  assert (H : Forall (unreadable no_files) province_configs).
  { apply Forall_forall. intros c _. right. intros df. discriminate. }
  split; [exact H|].
  exact (proj2 (unreadable_files_cost_no_request good_net sample_render no_files
                  default_max_retries false initial) H).
Defined.

(** ** What a reverse lookup returns *)

Lemma scan_components_untagged items :
  untagged items -> scan_components items = Ok None.
Proof.
  induction 1 as [|c rest (types & Ht & Hc) _ IH]; [done|]. simpl.
  apply getitem_member in Ht. rewrite Ht. simpl. rewrite Hc. simpl. exact IH.
Qed.

Lemma scan_components_tagged items long_name :
  tagged_first items long_name -> scan_components items = Ok (Some long_name).
Proof.
  intros (before & c & after & types & -> & Hbefore & Ht & Hc & Hl).
  induction Hbefore as [|c0 rest (types0 & Ht0 & Hc0) _ IH]; simpl.
  - apply getitem_member in Ht, Hl. rewrite Ht. simpl. rewrite Hc. simpl.
    by rewrite Hl.
  - apply getitem_member in Ht0. rewrite Ht0. simpl. rewrite Hc0. simpl. exact IH.
Qed.

Lemma scan_results_skip result items rest :
  components_of result items -> untagged items ->
  scan_results (result :: rest) = scan_results rest.
Proof.
  intros (components & Hm & Hi) Hu. simpl. apply getitem_member in Hm.
  rewrite Hm. simpl. rewrite Hi. simpl. by rewrite (scan_components_untagged _ Hu).
Qed.

Lemma scan_results_nothing results :
  results_give_nothing results -> scan_results results = Ok None.
Proof.
  induction 1 as [|r rest (its & Hc & Hu) _ IH]; [done|].
  by rewrite (scan_results_skip _ _ _ Hc Hu).
Qed.

Lemma scan_results_give results long_name :
  results_give results long_name -> scan_results results = Ok (Some long_name).
Proof.
  intros (before & result & after & items & -> & Hbefore & (comps & Hm & Hi) & Ht).
  induction Hbefore as [|r rest (its & Hc & Hu) _ IH].
  - simpl. apply getitem_member in Hm. rewrite Hm. simpl. rewrite Hi. simpl.
    by rewrite (scan_components_tagged _ _ Ht).
  - change ((r :: rest) ++ result :: after) with (r :: (rest ++ result :: after)).
    by rewrite (scan_results_skip _ _ _ Hc Hu).
Qed.

(** X7.  A reverse lookup answered by a success returns the [long_name] of
    the first component tagged ["postal_code"] of the first result that has
    one, and [None] when no result has one; it then prints nothing.  It
    returns [None] as well when there is no response, when the body is not
    JSON and when the status is absent or not the success token. *)
Theorem reverse_lookup_returns_first_postal_code net lat lng st :
  let after := mkState (cache st) (sent st ++ [Reverse lat lng]) (printed st) in
  (forall data results rs,
      net (sent st) (Reverse lat lng) = Json data ->
      status_ok data -> member data "results" results -> iterate results = Ok rs ->
      (forall long_name,
          results_give rs long_name ->
          get_postal_from_coords net lat lng st = (Ok long_name, after))
      /\ (results_give_nothing rs ->
          get_postal_from_coords net lat lng st = (Ok PNone, after)))
  /\ (match net (sent st) (Reverse lat lng) with
      | Json data => ~ status_ok data
      | _ => True
      end ->
      (get_postal_from_coords net lat lng st).1 = Ok PNone).
Proof.
  intros after. split.
  - intros data results rs Hnet Hstatus Hresults Hrs.
    apply getitem_member in Hstatus, Hresults.
    assert (Hrun : forall found,
              scan_results rs = Ok found ->
              get_postal_from_coords net lat lng st =
                (Ok (default PNone found), after)).
    { intros found Hscan.
      unfold get_postal_from_coords, bind, try_except, fetch, lift. rewrite Hnet.
      rewrite Hstatus. simpl eq_str. cbv iota.
      unfold reverse_result. rewrite Hresults. simpl. rewrite Hrs. simpl.
      rewrite Hscan. by destruct found. }
    split.
    + intros long_name H. by rewrite (Hrun _ (scan_results_give _ _ H)).
    + intros H. by rewrite (Hrun _ (scan_results_nothing _ H)).
  - unfold get_postal_from_coords, bind, try_except, fetch, lift, print, ret.
    destruct (net (sent st) (Reverse lat lng)) as [| |data]; try done.
    intros Hstatus.
    destruct (getitem data "status") as [status|] eqn:Hs; [|done].
    destruct (eq_str status "OK") eqn:Hok; [|done].
    apply eq_str_true in Hok as ->. apply getitem_member in Hs. by destruct Hstatus.
Qed.

(** The sample success: its second component is the first one tagged. *)
Lemma reverse_lookup_returns_first_postal_code_witness :
  results_give
    [PDict
       [("geometry",
         PDict [("location", PDict [("lat", PFloat (49 # 1)); ("lng", PFloat (-123 # 1))])]);
        ("address_components",
         PList [component "route" "Main St"; component "postal_code" "V5K 0A1"])]]
    (PStr "V5K 0A1")
  /\ get_postal_from_coords good_net (PFloat (49 # 1)) (PFloat (-123 # 1)) initial
     = (Ok (PStr "V5K 0A1"),
        mkState (cache initial)
          (sent initial ++ [Reverse (PFloat (49 # 1)) (PFloat (-123 # 1))])
          (printed initial)).
Proof.
  assert (Hroute : exists types,
            member (component "route" "Main St") "types" types
            /\ contains "postal_code" types = Ok false).
  { exists (PList [PStr "route"]). split; [|reflexivity]. by eexists. }
  assert (Hgive :
            results_give
              [PDict
                 [("geometry",
                   PDict [("location",
                           PDict [("lat", PFloat (49 # 1)); ("lng", PFloat (-123 # 1))])]);
                  ("address_components",
                   PList [component "route" "Main St";
                          component "postal_code" "V5K 0A1"])]]
              (PStr "V5K 0A1")).
  { exists [],
      (PDict
         [("geometry",
           PDict [("location",
                   PDict [("lat", PFloat (49 # 1)); ("lng", PFloat (-123 # 1))])]);
          ("address_components",
           PList [component "route" "Main St"; component "postal_code" "V5K 0A1"])]),
      [], [component "route" "Main St"; component "postal_code" "V5K 0A1"].
    split; [reflexivity|]. split; [constructor|]. split.
    - exists (PList [component "route" "Main St"; component "postal_code" "V5K 0A1"]).
      split; [by eexists | reflexivity].
    - exists [component "route" "Main St"], (component "postal_code" "V5K 0A1"), [],
        (PList [PStr "postal_code"]).
      split; [reflexivity|]. split; [by constructor|].
      split; [by eexists|]. split; [reflexivity | by eexists]. }
  split; [exact Hgive|].
  apply (proj1 (proj1 (reverse_lookup_returns_first_postal_code good_net
                         (PFloat (49 # 1)) (PFloat (-123 # 1)) initial)
                  vancouver
                  (PList
                     [PDict
                        [("geometry",
                          PDict [("location",
                                  PDict [("lat", PFloat (49 # 1));
                                         ("lng", PFloat (-123 # 1))])]);
                         ("address_components",
                          PList [component "route" "Main St";
                                 component "postal_code" "V5K 0A1"])]])
                  _ eq_refl
                  ltac:(by eexists) ltac:(by eexists) eq_refl)).
  exact Hgive.
Defined.
